(** * Tech-stocks dashboard (app.py): loading, filtering and metrics

    A shallow embedding of the data pipeline of [app.py]: the load loop over
    [company_list], the date normalisation, the filtered subset [dfc], the
    moving averages and the correlation matrix [corr]; and of what the sidebar
    and the charts take from the data: the list of companies, the initial
    value of the date slider and the tests that decide which overlays are
    drawn.

    Conventions of the model.
    - Python [str] values are [string] (byte strings); the separators the code
      looks for ('_', '.', '/') are ASCII.
    - Floating-point numbers are exact rationals ([Qc]); a missing number
      (NaN) is [NA] in a cell and [None] in a series. Rounding of binary
      floating point is not modelled.
    - Timestamps are integers ([Z], nanoseconds since the epoch); a missing
      timestamp (NaT) is [NA].
    - A frame is a list of column labels and a list of rows, each with its
      index label; a row maps column labels to cells. Whether a column is
      numeric is judged by the cells it holds.
    - The file system and [pd.read_csv] are an input of the model
      ([FileSystem]), and so are the values of the widgets ([Widgets]).
    - Calls into pandas and pathlib follow their documented behaviour. Three
      operations are parameters of the model ([Library]): the reading of a
      piece of text as a date, the [argsort] behind [sort_values] (whose
      documented contract, [argsort_ok], leaves the order of ties to the kind
      of sort), and the correlation coefficient of a method. *)

From Stdlib Require Import Strings.Ascii Strings.String.
From Stdlib Require Import QArith Qcanon Qround Lqa Sorting.Sorted Sorting.Permutation.
From stdpp Require Import base list strings gmap numbers pretty.

Local Open Scope Z_scope.

(** ** Python built-ins on strings *)

Module Py.

(** [s.split(sep)] for a one-character separator: the pieces between the
    occurrences of [sep]; never the empty list. *)
Fixpoint split (sep : ascii) (s : string) : list string :=
  match s with
  | EmptyString => [EmptyString]
  | String c s' =>
      if decide (c = sep) then EmptyString :: split sep s'
      else match split sep s' with
           | piece :: pieces => String c piece :: pieces
           | [] => [String c EmptyString]
           end
  end.

(** [sep.join(l)]. *)
Fixpoint join (sep : string) (l : list string) : string :=
  match l with
  | [] => EmptyString
  | [x] => x
  | x :: rest => x +:+ sep +:+ join sep rest
  end.

(** [c in s]. *)
Fixpoint contains (c : ascii) (s : string) : bool :=
  match s with
  | EmptyString => false
  | String c' s' => bool_decide (c' = c) || contains c s'
  end.

(** [s.rfind(c)]: the highest index of [c] in [s], or [-1]. *)
Fixpoint rfind (c : ascii) (s : string) : Z :=
  match s with
  | EmptyString => -1
  | String c' s' =>
      let i := rfind c s' in
      if 0 <=? i then i + 1
      else if decide (c' = c) then 0 else -1
  end.

(** [len(s)]. *)
Definition len (s : string) : Z := Z.of_nat (String.length s).

(** [s[:i]] for [0 <= i]. *)
Definition slice_to (i : Z) (s : string) : string :=
  String.substring 0 (Z.to_nat i) s.

(** The order of [str] values: lexicographic on the characters' codes. *)
Definition str_le (a b : string) : bool := String.leb a b.

(** [sorted(l)] on strings, by insertion. *)
Fixpoint insert_sorted (x : string) (l : list string) : list string :=
  match l with
  | [] => [x]
  | y :: l' => if str_le x y then x :: y :: l' else y :: insert_sorted x l'
  end.

Definition sorted (l : list string) : list string :=
  foldr insert_sorted [] l.

End Py.

(** ** pathlib: the pure part of [Path] (POSIX flavour) *)

Module Path.

(** The components of a path: the pieces between slashes, without the empty
    ones and the '.' ones. *)
Definition parts (file : string) : list string :=
  filter (fun p => p ≠ EmptyString ∧ p ≠ "."%string) (Py.split "/"%char file).

(** [Path(file).name]: the final component, or the empty string. *)
Definition name (file : string) : string :=
  List.last (parts file) EmptyString.

(** [Path(file).stem]: the name without its last suffix; a dot that starts
    or ends the name does not begin a suffix. *)
Definition stem (file : string) : string :=
  let name := name file in
  let i := Py.rfind "."%char name in
  if (0 <? i) && (i <? Py.len name - 1) then Py.slice_to i name else name.

End Path.

(** [p.stem.split('_')[0]] (line 40); [None] would be an IndexError. *)
Definition derive_symbol (file : string) : option string :=
  Py.split "_"%char (Path.stem file) !! 0%nat.

(** ** Data frames *)

(** A cell of a table: a number, a piece of text, a timestamp, or missing
    (NaN / NaT). *)
Inductive Cell :=
| Num (x : Qc)
| Text (s : string)
| Stamp (t : Z)
| NA.

Global Instance Cell_eq_dec : EqDecision Cell.
Proof. solve_decision. Defined.

(** A row maps column names to cells; a name without a cell reads as missing. *)
Abbreviation Row := (gmap string Cell).

Definition cell (r : Row) (c : string) : Cell := default NA (r !! c).

(** A frame: the column labels in order, and the rows in order, each with its
    index label. *)
Record DataFrame := mkDataFrame {
  columns : list string;
  rows : list (nat * Row)
}.

Global Instance DataFrame_eq_dec : EqDecision DataFrame.
Proof. solve_decision. Defined.

(** [pd.DataFrame()]. *)
Definition empty_frame : DataFrame := mkDataFrame [] [].

(** [df.empty]: some axis has length 0. *)
Definition empty (df : DataFrame) : bool :=
  bool_decide (columns df = []) || bool_decide (rows df = []).

(** [df[c] = v] for a scalar [v]: every row gets [v] under [c]; a new label
    goes last. *)
Definition assign (c : string) (v : Cell) (df : DataFrame) : DataFrame :=
  {| columns := if bool_decide (c ∈ columns df) then columns df
                else columns df ++ [c];
     rows := prod_map id (insert c v) <$> rows df |}.

(** [df[c] = series] for a series aligned with the rows of [df]. *)
Definition assign_series (c : string) (vs : list Cell) (df : DataFrame) : DataFrame :=
  {| columns := if bool_decide (c ∈ columns df) then columns df
                else columns df ++ [c];
     rows := zip_with (fun '(i, r) v => (i, <[c := v]> r)) (rows df) vs |}.

(** A fresh index 0, 1, 2, ... ([ignore_index=True]). *)
Definition reindex (l : list Row) : list (nat * Row) := imap pair l.

(** [pd.concat([a, b], ignore_index=True)]: the rows of [a] then those of
    [b]; the columns of [a], then those only [b] has. *)
Definition concat (a b : DataFrame) : DataFrame :=
  {| columns := columns a ++ filter (fun c => c ∉ columns a) (columns b);
     rows := reindex ((snd <$> rows a) ++ (snd <$> rows b)) |}.

(** What leaves a pandas call as an exception. *)
Inductive Exception :=
| KeyError (c : string)
| DateParseError (c : Cell)
| DataError (c : string).

(** ** The load loop (lines 27-49) *)

(** What the file system and [pd.read_csv] answer for one file name. *)
Inductive ReadResult :=
| Absent                      (* [p.exists()] is false *)
| Unreadable (e : string)     (* [pd.read_csv(p)] raises; [e] is [str] of it *)
| Parsed (df : DataFrame).    (* [pd.read_csv(p)] returns [df] *)

Definition FileSystem := string -> ReadResult.

Definition company_list : list string :=
  ["AAPL_data.csv"; "AMZN_data.csv"; "GOOG_data.csv"; "MSFT_data.csv"]%string.

Definition needed : list string :=
  ["date"; "open"; "high"; "low"; "close"; "volume"; "Name"]%string.

(** [needed - set(df.columns)], as the list of its elements in the order of
    [needed]; the code only ever reads it through [sorted]. *)
Definition missing_columns (df : DataFrame) : list string :=
  filter (fun c => c ∉ columns df) needed.

(** Lines 39-40. The IndexError of [[0]] would be caught by line 48. *)
Definition with_name (file : string) (df : DataFrame) : string + DataFrame :=
  if bool_decide ("Name"%string ∈ columns df) then inr df
  else match derive_symbol file with
       | Some sym => inr (assign "Name" (Text sym) df)
       | None => inl "list index out of range"%string
       end.

Definition missing_message (file : string) (missing : list string) : string :=
  Path.name file +:+ " missing columns: " +:+ Py.join ", " (Py.sorted missing).

(** One round of the loop of line 30, on the state ([all_data], [problems]). *)
Definition load_step (fs : FileSystem) (st : DataFrame * list string)
    (file : string) : DataFrame * list string :=
  let '(all_data, problems) := st in
  match fs file with
  | Absent => (all_data, problems ++ ["Missing file: " +:+ file])
  | Unreadable e => (all_data, problems ++ ["Error reading " +:+ file +:+ ": " +:+ e])
  | Parsed df =>
      match with_name file df with
      | inl e => (all_data, problems ++ ["Error reading " +:+ file +:+ ": " +:+ e])
      | inr df =>
          let missing := missing_columns df in
          if bool_decide (missing ≠ [])
          then (all_data, problems ++ [missing_message file missing])
          else (concat all_data df, problems)
      end
  end.

Definition load (fs : FileSystem) (files : list string) : DataFrame * list string :=
  foldl (load_step fs) (empty_frame, []) files.

(** ** Date normalisation (line 60) *)

(** [pd.to_datetime] on one value. [parse_date] is the library's reading of a
    piece of text ([None]: not a date, which raises); a number counts whole
    nanoseconds since the epoch; a missing value becomes NaT. *)
Definition to_timestamp (parse_date : string -> option Z) (c : Cell) : Exception + Cell :=
  match c with
  | Text s => match parse_date s with
              | Some t => inr (Stamp t)
              | None => inl (DateParseError c)
              end
  | Num x => inr (Stamp (Qfloor x))
  | Stamp t => inr (Stamp t)
  | NA => inr NA
  end.

(** The first exception of a list of results, or all the values. *)
Fixpoint sequence {E A} (l : list (E + A)) : E + list A :=
  match l with
  | [] => inr []
  | inl e :: _ => inl e
  | inr x :: l' => match sequence l' with
                   | inl e => inl e
                   | inr xs => inr (x :: xs)
                   end
  end.

(** [df[c]]: the cells of column [c], or a KeyError. *)
Definition column (c : string) (df : DataFrame) : Exception + list Cell :=
  if bool_decide (c ∈ columns df) then inr ((fun ir => cell ir.2 c) <$> rows df)
  else inl (KeyError c).

(** [all_data['date'] = pd.to_datetime(all_data['date'])]. *)
Definition to_datetime (parse_date : string -> option Z) (all_data : DataFrame)
    : Exception + DataFrame :=
  match column "date" all_data with
  | inl e => inl e
  | inr cs => match sequence (to_timestamp parse_date <$> cs) with
              | inl e => inl e
              | inr ts => inr (assign_series "date" ts all_data)
              end
  end.

(** ** The filtered subset (lines 84-85) *)

(** [all_data.query("Name == @selected_company")]. *)
Definition query_name (selected_company : string) (df : DataFrame) : DataFrame :=
  {| columns := columns df;
     rows := filter (fun ir => cell ir.2 "Name" = Text selected_company) (rows df) |}.

(** [start_d <= d <= end_d] on a cell of the date column; a comparison with
    NaT is false. *)
Definition in_range (start_d end_d : Z) (c : Cell) : bool :=
  match c with
  | Stamp t => (start_d <=? t) && (t <=? end_d)
  | _ => false
  end.

(** [df[(df['date'] >= start_d) & (df['date'] <= end_d)]]. *)
Definition date_mask (start_d end_d : Z) (df : DataFrame) : DataFrame :=
  {| columns := columns df;
     rows := filter (fun ir => in_range start_d end_d (cell ir.2 "date") = true) (rows df) |}.

(** The key [sort_values] sorts a date cell by; NaT has none and goes last. *)
Definition sort_key (c : Cell) : option Z :=
  match c with
  | Stamp t => Some t
  | _ => None
  end.

(** [df.take(indexer)]: the rows at the positions [indexer] lists. An indexer
    out of range is not what a sort produces; such positions are left out. *)
Definition take (indexer : list nat) (df : DataFrame) : DataFrame :=
  {| columns := columns df;
     rows := omap (fun i => rows df !! i) indexer |}.

(** [df.sort_values(by)]: the library's [argsort] of the keys (default
    [kind='quicksort']), then [take]. *)
Definition sort_values (argsort : list (option Z) -> list nat) (by_ : string)
    (df : DataFrame) : DataFrame :=
  take (argsort ((fun ir => sort_key (cell ir.2 by_)) <$> rows df)) df.

(** Lines 84-85: the subset [dfc]. *)
Definition filtered (argsort : list (option Z) -> list nat)
    (selected_company : string) (start_d end_d : Z) (all_data : DataFrame) : DataFrame :=
  sort_values argsort "date"
    (date_mask start_d end_d (query_name selected_company all_data)).

(** ** Moving averages (lines 88-90) *)

(** The state of the rolling mean: the sum and the number of the
    observations in the window. *)
Definition add_mean (v : option Qc) (st : Qc * nat) : Qc * nat :=
  match v with
  | Some x => ((st.1 + x)%Qc, S st.2)
  | None => st
  end.

Definition remove_mean (v : option Qc) (st : Qc * nat) : Qc * nat :=
  match v with
  | Some x => ((st.1 - x)%Qc, Nat.pred st.2)
  | None => st
  end.

Definition calc_mean (minp : nat) (st : Qc * nat) : option Qc :=
  if (minp <=? st.2)%nat && (0 <? st.2)%nat
  then Some (st.1 / Qc_of_Z (Z.of_nat st.2))%Qc
  else None.

(** Position [i] of the rolling mean over [values]: the value that left the
    window [i - w + 1 .. i] is removed, the one that entered is added. *)
Definition roll_step (w : nat) (values : list (option Qc))
    (acc : (Qc * nat) * list (option Qc)) (i : nat) : (Qc * nat) * list (option Qc) :=
  let st := acc.1 in
  let st := if (w <=? i)%nat then remove_mean (mjoin (values !! (i - w)%nat)) st else st in
  let st := add_mean (mjoin (values !! i)) st in
  (st, acc.2 ++ [calc_mean w st]).

(** [series.rolling(w).mean()]: [min_periods] is [w]. *)
Definition rolling_mean (w : nat) (values : list (option Qc)) : list (option Qc) :=
  (foldl (roll_step w values) ((0%Qc, 0%nat), []) (seq 0 (length values))).2.

(** A cell as a floating-point number; text and timestamps are not numeric. *)
Definition to_float (c : Cell) : option (option Qc) :=
  match c with
  | Num x => Some (Some x)
  | NA => Some None
  | Text _ | Stamp _ => None
  end.

Definition of_float (v : option Qc) : Cell :=
  match v with
  | Some x => Num x
  | None => NA
  end.

(** [df[c]] as numbers; [None] when some cell is not numeric. *)
Definition floats (cs : list Cell) : option (list (option Qc)) :=
  mapM to_float cs.

(** [dfc[c].rolling(w).mean()]. *)
Definition rolling_column (w : nat) (c : string) (dfc : DataFrame) : Exception + list Cell :=
  match column c dfc with
  | inl e => inl e
  | inr cs => match floats cs with
              | Some vs => inr (of_float <$> rolling_mean w vs)
              | None => inl (DataError c)
              end
  end.

Definition metrics : list string := ["close"; "open"; "high"; "low"; "volume"]%string.

(** [f'MA_{n}']. *)
Definition ma_label (n : nat) : string := "MA_" +:+ pretty n.

(** Lines 88-90. *)
Definition moving_averages (selected_metric : string) (ma_1 ma_2 : nat)
    (dfc : DataFrame) : Exception + DataFrame :=
  if bool_decide (selected_metric ≠ "volume"%string) then
    match rolling_column ma_1 selected_metric dfc with
    | inl e => inl e
    | inr s1 =>
        let dfc := assign_series (ma_label ma_1) s1 dfc in
        match rolling_column ma_2 selected_metric dfc with
        | inl e => inl e
        | inr s2 => inr (assign_series (ma_label ma_2) s2 dfc)
        end
    end
  else inr dfc.

(** ** The correlation matrix (lines 134-135) *)

Inductive Method := pearson | spearman | kendall.

Definition show_cols : list string := ["open"; "high"; "low"; "close"; "volume"]%string.

(** [df[cols]]: a KeyError for the first label [df] does not have. *)
Definition select (cols : list string) (df : DataFrame) : Exception + DataFrame :=
  match list_find (fun c => c ∉ columns df) cols with
  | Some (_, c) => inl (KeyError c)
  | None =>
      inr {| columns := cols;
             rows := prod_map id (filter (fun kv : string * Cell => kv.1 ∈ cols)) <$> rows df |}
  end.

(** A square table of coefficients, NaN being [None]. *)
Record Matrix := mkMatrix {
  labels : list string;
  entries : list (list (option Qc))
}.

Definition is_numeric (c : Cell) : bool :=
  match c with
  | Num _ | NA => true
  | Text _ | Stamp _ => false
  end.

Definition cells_of (c : string) (df : DataFrame) : list Cell :=
  (fun ir => cell ir.2 c) <$> rows df.

(** [numeric_only=True]: the columns that hold numbers only (a column of a
    frame without rows counts as numeric). *)
Definition numeric_columns (df : DataFrame) : list string :=
  filter (fun c => forallb is_numeric (cells_of c df) = true) (columns df).

(** The rows where both columns have a number. *)
Definition observations (xs ys : list Cell) : list (Qc * Qc) :=
  omap (fun xy => match xy with
                  | (Num a, Num b) => Some (a, b)
                  | _ => None
                  end) (zip xs ys).

Definition min_periods : nat := 1.

(** One entry: NaN below [min_periods] observations, else the coefficient
    of the method on the observations (NaN where it is undefined). *)
Definition corr_entry (coefficient : Method -> list (Qc * Qc) -> option Qc)
    (method : Method) (xs ys : list Cell) : option Qc :=
  let obs := observations xs ys in
  if (length obs <? min_periods)%nat then None else coefficient method obs.

(** [df.corr(method=method, numeric_only=True)]. *)
Definition DataFrame_corr (coefficient : Method -> list (Qc * Qc) -> option Qc)
    (method : Method) (df : DataFrame) : Matrix :=
  let cols := numeric_columns df in
  {| labels := cols;
     entries := (fun a => (fun b => corr_entry coefficient method (cells_of a df) (cells_of b df))
                            <$> cols) <$> cols |}.

(** The nearest integer, a tie going to the even one. *)
Definition rint (x : Qc) : Z :=
  let f := Qfloor x in
  match Qccompare (x - Qc_of_Z f) (Q2Qc (1 # 2)) with
  | Lt => f
  | Gt => f + 1
  | Eq => if Z.even f then f else f + 1
  end.

(** [round(x, ndigits)]. *)
Definition round_to (ndigits : nat) (x : Qc) : Qc :=
  let scale := Qc_of_Z (10 ^ Z.of_nat ndigits) in
  (Qc_of_Z (rint (x * scale)) / scale)%Qc.

(** [m.round(ndigits)]: NaN stays NaN. *)
Definition Matrix_round (ndigits : nat) (m : Matrix) : Matrix :=
  {| labels := labels m;
     entries := (fun row : list (option Qc) =>
                   (fun v : option Qc => round_to ndigits <$> v) <$> row)
                <$> entries m |}.

(** Line 135: [corr]. *)
Definition corr (coefficient : Method -> list (Qc * Qc) -> option Qc)
    (method : Method) (dfc : DataFrame) : Exception + Matrix :=
  match select show_cols dfc with
  | inl e => inl e
  | inr d => inr (Matrix_round 2 (DataFrame_corr coefficient method d))
  end.

Global Instance Exception_eq_dec : EqDecision Exception.
Proof. solve_decision. Defined.

Global Instance Matrix_eq_dec : EqDecision Matrix.
Proof. solve_decision. Defined.

(** The table of [n] labels whose entries are all missing. *)
Definition nan_matrix (cols : list string) : Matrix :=
  mkMatrix cols (replicate (length cols) (replicate (length cols) None)).


(** The entry in row [i] and column [j] of a table, if it has one. *)
Definition entry (m : Matrix) (i j : nat) : option (option Qc) :=
  entries m !! i ≫= (fun row => row !! j).

(** ** The script as a whole *)

(** The operations of the numerics library the model leaves open. *)
Record Library := mkLibrary {
  parse_date : string -> option Z;
  argsort : list (option Z) -> list nat;
  coefficient : Method -> list (Qc * Qc) -> option Qc
}.

(** The values of the sidebar widgets and of the method selector. *)
Record Widgets := mkWidgets {
  selected_company : string;
  selected_metric : string;
  start_d : Z;
  end_d : Z;
  ma_1 : nat;
  ma_2 : nat;
  method : Method
}.

(** How a run of the script ends: stopped at line 57 after showing the load
    errors; left by an exception nothing catches; or run to the end, with the
    subset, the correlation matrix and the loading notes of line 157 (the
    charts and the summary table are drawn from these and are not modelled). *)
Inductive Outcome :=
| NoDataLoaded (shown : list string)
| Uncaught (e : Exception)
| Rendered (dfc : DataFrame) (corr : Matrix) (notes : list string).

Definition run (lib : Library) (fs : FileSystem) (files : list string)
    (w : Widgets) : Outcome :=
  let '(all_data, problems) := load fs files in
  if empty all_data then NoDataLoaded problems
  else
    match to_datetime (parse_date lib) all_data with
    | inl e => Uncaught e
    | inr all_data =>
        let dfc := filtered (argsort lib) (selected_company w) (start_d w) (end_d w) all_data in
        match moving_averages (selected_metric w) (ma_1 w) (ma_2 w) dfc with
        | inl e => Uncaught e
        | inr dfc =>
            match corr (coefficient lib) (method w) dfc with
            | inl e => Uncaught e
            | inr c => Rendered dfc c problems
            end
        end
    end.

Definition app (lib : Library) (fs : FileSystem) (w : Widgets) : Outcome :=
  run lib fs company_list w.

(** ** The contract of the library's sort *)

(** Ascending keys, NaT last. *)
Definition key_le (a b : option Z) : Prop :=
  match a, b with
  | Some x, Some y => x <= y
  | _, None => True
  | None, Some _ => False
  end.

Definition key_leb (a b : option Z) : bool :=
  match a, b with
  | Some x, Some y => x <=? y
  | _, None => true
  | None, Some _ => false
  end.

(** The keys in the order an indexer lists them. *)
Definition keys_along (ks : list (option Z)) (indexer : list nat) : list (option Z) :=
  omap (fun i => ks !! i) indexer.

(** What the documentation promises of [argsort] whatever the [kind]: the
    positions 0 .. n-1, each once, such that the keys ascend. Only the kinds
    'mergesort' and 'stable' also promise to keep ties in their order. *)
Record argsort_ok (argsort : list (option Z) -> list nat) : Prop := {
  argsort_perm : forall ks, argsort ks ≡ₚ seq 0 (length ks);
  argsort_sorted : forall ks, Sorted key_le (keys_along ks (argsort ks))
}.

(** Two sorts that keep the contract: insertion of each position, from the
    last to the first, before the first position whose key is not smaller
    ([strict = false]: ties stay in their order) or before the first position
    whose key is larger ([strict = true]: ties end up reversed). *)
Definition goes_before (strict : bool) (a b : option Z) : bool :=
  if strict then negb (key_leb b a) else key_leb a b.

Fixpoint insert_index (strict : bool) (ks : list (option Z)) (i : nat)
    (indexer : list nat) : list nat :=
  match indexer with
  | [] => [i]
  | j :: rest =>
      if goes_before strict (mjoin (ks !! i)) (mjoin (ks !! j))
      then i :: j :: rest
      else j :: insert_index strict ks i rest
  end.

Definition insertion_argsort (strict : bool) (ks : list (option Z)) : list nat :=
  foldr (insert_index strict ks) [] (seq 0 (length ks)).

Definition stable_argsort : list (option Z) -> list nat := insertion_argsort false.

(** ** Stand-ins for the other library operations, to run the model with *)

(** Kendall's tau of observations without ties: concordant minus discordant
    pairs over the number of pairs. *)
Definition sgn_diff (a b : Qc) : Z :=
  match Qccompare a b with
  | Lt => -1
  | Eq => 0
  | Gt => 1
  end.

Fixpoint concordance (obs : list (Qc * Qc)) : Z :=
  match obs with
  | [] => 0
  | p :: rest =>
      foldr (fun q acc => sgn_diff p.1 q.1 * sgn_diff p.2 q.2 + acc) 0 rest
      + concordance rest
  end.

Definition tau_untied (obs : list (Qc * Qc)) : option Qc :=
  let n := Z.of_nat (length obs) in
  if n <? 2 then None
  else Some (Qc_of_Z (concordance obs) / Qc_of_Z (n * (n - 1) / 2))%Qc.

(** Kendall's method only; the other two take square roots and are left
    undefined here. *)
Definition kendall_only (m : Method) (obs : list (Qc * Qc)) : option Qc :=
  match m with
  | kendall => tau_untied obs
  | pearson | spearman => None
  end.

(** ISO dates (YYYY-MM-DD) only, as nanoseconds since 1970-01-01. *)
Definition digit (c : ascii) : option Z :=
  let n := Z.of_nat (nat_of_ascii c) in
  if (48 <=? n) && (n <=? 57) then Some (n - 48) else None.

Fixpoint number (acc : Z) (s : string) : option Z :=
  match s with
  | EmptyString => Some acc
  | String c s' => match digit c with
                   | Some d => number (10 * acc + d) s'
                   | None => None
                   end
  end.

Definition is_leap (y : Z) : bool :=
  ((y mod 4 =? 0) && negb (y mod 100 =? 0)) || (y mod 400 =? 0).

Definition days_in_month (y m : Z) : Z :=
  if m =? 2 then (if is_leap y then 29 else 28)
  else if (m =? 4) || (m =? 6) || (m =? 9) || (m =? 11) then 30 else 31.

Definition days_from_civil (y m d : Z) : Z :=
  let y := if m <=? 2 then y - 1 else y in
  let era := y / 400 in
  let yoe := y - era * 400 in
  let doy := (153 * (if 2 <? m then m - 3 else m + 9) + 2) / 5 + d - 1 in
  let doe := yoe * 365 + yoe / 4 - yoe / 100 + doy in
  era * 146097 + doe - 719468.

Definition iso_date (s : string) : option Z :=
  match Py.split "-"%char s with
  | [ys; ms; ds] =>
      if bool_decide (String.length ys = 4 ∧ String.length ms = 2 ∧ String.length ds = 2)%nat
      then
        match number 0 ys, number 0 ms, number 0 ds with
        | Some y, Some m, Some d =>
            if (1 <=? m) && (m <=? 12) && (1 <=? d) && (d <=? days_in_month y m)
            then Some (days_from_civil y m d * 86400000000000)
            else None
        | _, _, _ => None
        end
      else None
  | _ => None
  end.

Definition reference_library : Library :=
  mkLibrary iso_date stable_argsort kendall_only.

(** ** The rolling mean, in the words of its description *)

Definition sum_Qc (l : list Qc) : Qc := foldr Qcplus 0%Qc l.

Definition mean (l : list Qc) : Qc :=
  (sum_Qc l / Qc_of_Z (Z.of_nat (length l)))%Qc.

(** The [w] values at the positions [i - w + 1 .. i]. *)
Definition window {A} (w : nat) (values : list A) (i : nat) : list A :=
  firstn w (skipn (S i - w) values).

(** The mean of the window when it has [w] positions and a value at each;
    missing otherwise. *)
Definition window_mean (w : nat) (values : list (option Qc)) (i : nat) : option Qc :=
  if (w <=? S i)%nat then mean <$> mapM id (window w values i) else None.

(** ** The load loop, source by source *)

(** What one round of the loop makes of its file: one problem ([inl]), or the
    frame it appends to [all_data] ([inr]). *)
Definition read_source (fs : FileSystem) (file : string) : string + DataFrame :=
  match fs file with
  | Absent => inl ("Missing file: " +:+ file)
  | Unreadable e => inl ("Error reading " +:+ file +:+ ": " +:+ e)
  | Parsed df =>
      match with_name file df with
      | inl e => inl ("Error reading " +:+ file +:+ ": " +:+ e)
      | inr df =>
          if bool_decide (missing_columns df ≠ []) then inl (missing_message file (missing_columns df))
          else inr df
      end
  end.

(** The problems and the frames of a list of results, each in order. *)
Definition problems_of {A} (l : list (string + A)) : list string :=
  omap (fun r => match r with inl msg => Some msg | inr _ => None end) l.

Definition frames_of {E} (l : list (E + DataFrame)) : list DataFrame :=
  omap (fun r => match r with inl _ => None | inr df => Some df end) l.

(** ** The filtered subset, in the words of its description *)

(** A row of the symbol whose date lies in the range. *)
Definition matches (selected_company : string) (start_d end_d : Z)
    (ir : nat * Row) : Prop :=
  cell ir.2 "Name" = Text selected_company
  /\ exists t, cell ir.2 "date" = Stamp t /\ start_d <= t <= end_d.

(** The index labels of a frame, in row order. *)
Definition index (df : DataFrame) : list nat := fst <$> rows df.

(** The date keys of a frame, in row order. *)
Definition date_keys (df : DataFrame) : list (option Z) :=
  (fun ir : nat * Row => sort_key (cell ir.2 "date")) <$> rows df.


Global Instance matches_dec (selected_company : string) (start_d end_d : Z)
    (ir : nat * Row) : Decision (matches selected_company start_d end_d ir).
Proof.
  unfold matches. destruct (cell ir.2 "date") as [x|s|t|].
  - right. by intros [_ (t & Ht & _)].
  - right. by intros [_ (t & Ht & _)].
  - destruct (decide (cell ir.2 "Name" = Text selected_company
                      /\ start_d <= t <= end_d)) as [Hyes|Hno].
    + left. destruct Hyes as [HN Ht]. split; [done|]. by exists t.
    + right. intros [HN (t' & Ht' & Hr)]. apply Hno.
      injection Ht' as ->. done.
  - right. by intros [_ (t & Ht & _)].
Defined.

(** The sum and the number of the values that are present in a list. *)
Definition observed (l : list (option Qc)) : Qc * nat :=
  (sum_Qc (omap id l), length (omap id l)).

(** The part of the first [k] values that the window holds. *)
Definition held (w : nat) (values : list (option Qc)) (k : nat) : list (option Qc) :=
  skipn (k - w) (firstn k values).

(** The positions of a series that hold a value. *)
Definition defined_count (out : list (option Qc)) : nat :=
  length (filter is_Some out).

(** ** Example data *)

(** A row as [pd.read_csv] gives it: the date is still text. *)
Definition csv_row (date : string) (price volume : Z) : Row :=
  {[ "date"%string := Text date;
     "open"%string := Num (Qc_of_Z price);
     "high"%string := Num (Qc_of_Z (price + 1));
     "low"%string := Num (Qc_of_Z (price - 1));
     "close"%string := Num (Qc_of_Z price);
     "volume"%string := Num (Qc_of_Z volume) ]}.

Definition csv_columns : list string :=
  ["date"; "open"; "high"; "low"; "close"; "volume"]%string.

(** A file with the six fields and no symbol column. *)
Definition aapl_csv : DataFrame :=
  mkDataFrame csv_columns
    (reindex [csv_row "2013-02-08" 10 100; csv_row "2013-02-11" 12 120;
              csv_row "2013-02-12" 11 90]).

(** A file that lacks the volume column only. *)
Definition goog_csv : DataFrame :=
  mkDataFrame ["date"; "open"; "high"; "low"; "close"; "Name"]%string
    (reindex [<["Name"%string := Text "GOOG"]> (delete "volume"%string (csv_row "2013-02-08" 390 0))]).


Definition example_fs : FileSystem := fun file =>
  if bool_decide (file = "AAPL_data.csv"%string) then Parsed aapl_csv
  else if bool_decide (file = "AMZN_data.csv"%string)
       then Unreadable "No columns to parse from file"
  else if bool_decide (file = "GOOG_data.csv"%string) then Parsed goog_csv
  else Absent.


Definition example_widgets (company metric : string) : Widgets :=
  mkWidgets company metric 0 2000000000000000000 2 5 kendall.

(** A row of a normalised dataset. *)
Definition bar (name : string) (t open high low close volume : Z) : Row :=
  {[ "date"%string := Stamp t;
     "open"%string := Num (Qc_of_Z open);
     "high"%string := Num (Qc_of_Z high);
     "low"%string := Num (Qc_of_Z low);
     "close"%string := Num (Qc_of_Z close);
     "volume"%string := Num (Qc_of_Z volume);
     "Name"%string := Text name ]}.

Definition example_data : DataFrame :=
  mkDataFrame needed
    (reindex [bar "AAPL" 3 10 11 9 10 100; bar "MSFT" 1 20 21 19 20 200;
              bar "AAPL" 1 11 12 10 11 110; bar "AAPL" 2 12 13 11 12 120;
              bar "AAPL" 9 13 14 12 13 130]).


(** Three rows whose open and high prices are in different orders. *)
Definition three_bars : DataFrame :=
  mkDataFrame needed
    (reindex [bar "AAPL" 1 1 1 1 1 1; bar "AAPL" 2 2 3 2 2 2; bar "AAPL" 3 3 2 3 3 3]).

(** ** The sidebar (lines 64-77) and the overlays (lines 105-109) *)

(** The rows one file gives to the combined dataset. *)
Definition source_rows (fs : FileSystem) (file : string) : list Row :=
  match read_source fs file with
  | inr df => snd <$> rows df
  | inl _ => []
  end.

(** [series.unique()]: the values in the order of their first appearance. *)
Definition unique {A} `{EqDecision A} (l : list A) : list A :=
  foldl (fun seen x => if bool_decide (x ∈ seen) then seen else seen ++ [x]) [] l.

Definition text_of (c : Cell) : option string :=
  match c with
  | Text s => Some s
  | _ => None
  end.

(** Line 64, [sorted(all_data['Name'].unique().tolist())], for a symbol
    column that holds text only. [None]: some cell of the column is a number
    or is missing; [sorted] then has to compare text with numbers, or sorts
    numbers, which this model leaves out. *)
Definition companies (all_data : DataFrame) : option (list string) :=
  Py.sorted <$> mapM text_of (unique (cells_of "Name" all_data)).

(** The timestamps of the date column, NaT left out. *)
Definition dates (df : DataFrame) : list Z :=
  omap sort_key (cells_of "date" df).

(** [all_data['date'].min()] and [.max()] (line 71): NaT is skipped, and is
    the result ([None]) when no row has a date. *)
Definition min_d (all_data : DataFrame) : option Z :=
  match dates all_data with
  | [] => None
  | t :: ts => Some (foldr Z.min t ts)
  end.

Definition max_d (all_data : DataFrame) : option Z :=
  match dates all_data with
  | [] => None
  | t :: ts => Some (foldr Z.max t ts)
  end.

(** [t.to_pydatetime()], read back by [pd.to_datetime] on line 85: a
    datetime counts microseconds, the nanoseconds below are dropped. *)
Definition to_pydatetime (t : Z) : Z := t / 1000 * 1000.

(** Lines 72-77: the value of the date slider as long as the user has not
    moved it. [None]: the slider is handed NaT. *)
Definition default_range (all_data : DataFrame) : option (Z * Z) :=
  match min_d all_data, max_d all_data with
  | Some a, Some b => Some (to_pydatetime a, to_pydatetime b)
  | _, _ => None
  end.

(** [dfc[label].notna().any()] (lines 106 and 108). *)
Definition notna (c : Cell) : bool := negb (bool_decide (c = NA)).

Definition overlay_drawn (label : string) (dfc : DataFrame) : bool :=
  existsb notna (cells_of label dfc).

(** * Properties *)

(** A closed decidable statement, settled by evaluation. *)
Ltac by_evaluation := apply (bool_decide_unpack _); by vm_compute.

(** The members of a list written out, one goal each. *)
Ltac each_member H :=
  repeat (apply elem_of_cons in H as [->|H]); [..|by apply elem_of_nil in H].

(** ** Symbol derivation *)

Section split_facts.
Variable sep : ascii.

Lemma split_not_nil (s : string) : Py.split sep s ≠ [].
Proof.
  destruct s as [|c s]; simpl; [done|].
  case_decide; [done|]. by destruct (Py.split sep s).
Qed.

(** The first piece is the longest prefix free of the separator, and what
    follows it, if anything, starts with the separator. *)
Lemma split_first (s : string) :
  exists piece pieces,
    Py.split sep s = piece :: pieces
    /\ Py.contains sep piece = false
    /\ (Py.contains sep s = false -> piece = s /\ pieces = [])
    /\ (Py.contains sep s = true ->
        exists rest, s = piece +:+ String sep rest /\ pieces = Py.split sep rest).
Proof.
  induction s as [|c s (piece & pieces & Hs & Hfree & Hno & Hyes)]; simpl.
  - exists EmptyString, []. repeat split; try done.
  - case_decide as Hc.
    + subst c. exists EmptyString, (Py.split sep s).
      case_bool_decide; [|done]. simpl.
      repeat split; try done. intros _. by exists s.
    + rewrite Hs. case_bool_decide as Hc'; [done|]. simpl.
      exists (String c piece), pieces. simpl.
      split; [done|]. split; [by case_bool_decide|]. split.
      * intros Hin. by destruct (Hno Hin) as [-> ->].
      * intros Hin. destruct (Hyes Hin) as (rest & -> & ->). by exists rest.
Qed.

(** Joining the pieces with the separator gives the string back. *)
Lemma join_split (s : string) : Py.join (String sep EmptyString) (Py.split sep s) = s.
Proof.
  induction s as [|c s IH]; simpl; [done|].
  case_decide as Hc.
  - subst c. pose proof (split_not_nil s) as Hne.
    destruct (Py.split sep s) as [|p ps] eqn:E; [done|].
    simpl in *. by rewrite IH.
  - pose proof (split_not_nil s) as Hne.
    destruct (Py.split sep s) as [|p ps] eqn:E; [done|].
    destruct ps as [|p' ps]; simpl in *; by rewrite <- IH.
Qed.
End split_facts.

Lemma derive_symbol_Some (file : string) : is_Some (derive_symbol file).
Proof.
  unfold derive_symbol.
  destruct (split_first "_"%char (Path.stem file)) as (piece & pieces & -> & _).
  by exists piece.
Qed.

(** C10. Symbol derivation is total: for every file name, line 40 yields a
    symbol (the subscript [[0]] never fails); the symbol is the part of the
    stem of the name before the first underscore: it has no underscore, it is
    the whole stem when the stem has none, otherwise the stem is the symbol,
    an underscore and a rest; a stem that begins with an underscore gives the
    empty symbol. *)
Theorem derive_symbol_total (file : string) :
  exists sym,
    derive_symbol file = Some sym
    /\ Py.contains "_"%char sym = false
    /\ (Py.contains "_"%char (Path.stem file) = false -> sym = Path.stem file)
    /\ (Py.contains "_"%char (Path.stem file) = true ->
        exists rest, Path.stem file = sym +:+ "_" +:+ rest)
    /\ (forall rest, Path.stem file = String "_"%char rest -> sym = EmptyString).
Proof.
  unfold derive_symbol.
  destruct (split_first "_"%char (Path.stem file))
    as (piece & pieces & Hs & Hfree & Hno & Hyes).
  exists piece. rewrite Hs. repeat split; try done.
  - intros H. by destruct (Hno H).
  - intros H. destruct (Hyes H) as (rest & Hrest & _). by exists rest.
  - intros rest Hrest. rewrite Hrest in Hs. simpl in Hs.
    by injection Hs as <- _.
Qed.

Example derive_symbol_AAPL : derive_symbol "AAPL_data.csv" = Some "AAPL"%string.
Proof. reflexivity. Qed.

Example derive_symbol_nested :
  derive_symbol "data/./MSFT_2013_2018.v2.csv" = Some "MSFT"%string.
Proof. reflexivity. Qed.

Example derive_symbol_plain : derive_symbol "prices.csv" = Some "prices"%string.
Proof. reflexivity. Qed.

Example derive_symbol_leading : derive_symbol "_data.csv" = Some ""%string.
Proof. reflexivity. Qed.

Example stem_hidden : Path.stem ".bashrc" = ".bashrc"%string.
Proof. reflexivity. Qed.

(** ** The load loop *)

Lemma with_name_inr (file : string) (df : DataFrame) :
  exists df',
    with_name file df = inr df'
    /\ "Name"%string ∈ columns df'
    /\ (forall c, c ∈ columns df -> c ∈ columns df')
    /\ (forall c, c ∈ columns df' -> c = "Name"%string \/ c ∈ columns df)
    /\ length (rows df') = length (rows df).
Proof.
  unfold with_name. case_bool_decide as HN.
  - exists df. repeat split; auto.
  - destruct (derive_symbol_Some file) as [sym ->].
    eexists. split; [reflexivity|]. unfold assign; simpl.
    rewrite bool_decide_eq_false_2 by done.
    repeat split.
    + set_solver.
    + set_solver.
    + intros c [Hc | ->%list_elem_of_singleton]%elem_of_app; auto.
    + by rewrite length_fmap.
Qed.

Lemma load_step_read_source (fs : FileSystem) (all_data : DataFrame)
    (problems : list string) (file : string) :
  load_step fs (all_data, problems) file =
    match read_source fs file with
    | inl msg => (all_data, problems ++ [msg])
    | inr df => (concat all_data df, problems)
    end.
Proof.
  unfold load_step, read_source.
  destruct (fs file) as [|e|df]; try done.
  destruct (with_name file df) as [e|df']; try done.
  by case_bool_decide.
Qed.

Lemma foldl_load_step (fs : FileSystem) (files : list string)
    (all_data : DataFrame) (problems : list string) :
  foldl (load_step fs) (all_data, problems) files =
    (foldl concat all_data (frames_of (read_source fs <$> files)),
     problems ++ problems_of (read_source fs <$> files)).
Proof.
  revert all_data problems.
  induction files as [|file files IH]; intros all_data problems.
  - simpl. by rewrite app_nil_r.
  - cbn [foldl]. rewrite load_step_read_source, fmap_cons.
    unfold frames_of, problems_of in *.
    destruct (read_source fs file) as [msg|df]; rewrite IH; simpl.
    + by rewrite <- app_assoc.
    + done.
Qed.

(** The loader as a whole: the frames of the sources that pass, concatenated
    in order, and the problems of the others, in order. *)
Lemma load_read_source (fs : FileSystem) (files : list string) :
  load fs files =
    (foldl concat empty_frame (frames_of (read_source fs <$> files)),
     problems_of (read_source fs <$> files)).
Proof. unfold load. by rewrite foldl_load_step. Qed.

Lemma problems_of_app {A} (l1 l2 : list (string + A)) :
  problems_of (l1 ++ l2) = problems_of l1 ++ problems_of l2.
Proof. unfold problems_of. by rewrite omap_app. Qed.

Lemma frames_of_app {E} (l1 l2 : list (E + DataFrame)) :
  frames_of (l1 ++ l2) = frames_of l1 ++ frames_of l2.
Proof. unfold frames_of. by rewrite omap_app. Qed.


(** [sorted] gives the same strings, in ascending order. *)
Lemma insert_sorted_perm (x : string) (l : list string) :
  Py.insert_sorted x l ≡ₚ x :: l.
Proof.
  induction l as [|y l IH]; simpl; [done|].
  destruct (Py.str_le x y); [done|].
  by rewrite IH, Permutation_swap.
Qed.

Lemma sorted_perm (l : list string) : Py.sorted l ≡ₚ l.
Proof.
  unfold Py.sorted. induction l as [|x l IH]; simpl; [done|].
  by rewrite insert_sorted_perm, IH.
Qed.

Lemma insert_sorted_Sorted (x : string) (l : list string) :
  Sorted (fun a b => Py.str_le a b = true) l ->
  Sorted (fun a b => Py.str_le a b = true) (Py.insert_sorted x l).
Proof.
  induction 1 as [|y l Hl IH Hhd]; simpl.
  - by repeat constructor.
  - destruct (Py.str_le x y) eqn:Hxy.
    + by repeat constructor.
    + constructor; [done|].
      assert (Py.str_le y x = true) as Hyx.
      { unfold Py.str_le in *. destruct (String.leb_total x y); congruence. }
      destruct Hhd as [|z l Hyz]; simpl.
      * by constructor.
      * destruct (Py.str_le x z); by constructor.
Qed.

Lemma sorted_Sorted (l : list string) :
  Sorted (fun a b => Py.str_le a b = true) (Py.sorted l).
Proof.
  unfold Py.sorted. induction l as [|x l IH]; simpl; [constructor|].
  by apply insert_sorted_Sorted.
Qed.

Lemma elem_of_missing_columns (df : DataFrame) (c : string) :
  c ∈ missing_columns df <-> c ∈ needed /\ c ∉ columns df.
Proof. unfold missing_columns. rewrite list_elem_of_filter. tauto. Qed.

Lemma NoDup_needed : NoDup needed.
Proof. by_evaluation. Qed.

Lemma NoDup_missing_columns (df : DataFrame) : NoDup (missing_columns df).
Proof. apply NoDup_filter, NoDup_needed. Qed.

(** A source that was read has its symbol column when the check of line 43
    runs, whatever the file held. *)
Lemma read_source_parsed (fs : FileSystem) (file : string) (df : DataFrame) :
  fs file = Parsed df ->
  exists df',
    with_name file df = inr df'
    /\ "Name"%string ∈ columns df'
    /\ (forall c, c ≠ "Name"%string -> c ∈ columns df' <-> c ∈ columns df)
    /\ read_source fs file =
         if bool_decide (missing_columns df' ≠ [])
         then inl (missing_message file (missing_columns df'))
         else inr df'.
Proof.
  intros Hfs. destruct (with_name_inr file df) as (df' & Hw & HN & Hsub & Hsup & _).
  exists df'. split; [done|]. split; [done|]. split.
  - intros c Hc. split; [|by auto]. intros Hin. by destruct (Hsup c Hin).
  - unfold read_source. by rewrite Hfs, Hw.
Qed.

(** A list without repetition whose only possible element is [x] and which
    is not empty is [[x]]. *)
Lemma NoDup_only {A} (x : A) (l : list A) :
  NoDup l -> (forall y, y ∈ l -> y = x) -> l ≠ [] -> l = [x].
Proof.
  intros Hnd Hall Hne. destruct l as [|a [|b l]]; [done| |].
  - by rewrite (Hall a) by set_solver.
  - exfalso. apply NoDup_cons in Hnd as [Hnotin _].
    apply Hnotin. rewrite (Hall a), (Hall b) by set_solver. set_solver.
Qed.

(** C3. A source that parses but lacks one or more of the required fields
    adds no row to the combined dataset (loading with or without it gives the
    same dataset) and exactly one diagnostic, in its place among the others:
    the name of the source, " missing columns: ", and the missing fields,
    each once, in ascending order, separated by ", ". A source that lacks the
    volume column only gets "<name> missing columns: volume". *)
Theorem missing_columns_skip (fs : FileSystem) (before after : list string)
    (file : string) (df : DataFrame) :
  fs file = Parsed df ->
  (exists c, c ∈ needed /\ c ≠ "Name"%string /\ c ∉ columns df) ->
  exists missing,
    (load fs (before ++ file :: after)).1 = (load fs (before ++ after)).1
    /\ (load fs (before ++ file :: after)).2 =
         (load fs before).2
         ++ [Path.name file +:+ " missing columns: " +:+ Py.join ", " missing]
         ++ (load fs after).2
    /\ (forall c, c ∈ missing <-> c ∈ needed /\ c ≠ "Name"%string /\ c ∉ columns df)
    /\ NoDup missing
    /\ Sorted (fun a b => Py.str_le a b = true) missing
    /\ ((forall c, c ∈ needed -> c ≠ "Name"%string -> c ∉ columns df -> c = "volume"%string) ->
        missing = ["volume"%string]).
Proof.
  intros Hfs (c0 & Hc0 & Hc0N & Hc0df).
  destruct (read_source_parsed fs file df Hfs) as (df' & _ & HN & Hcols & Hread).
  assert (forall c, c ∈ missing_columns df' <->
                    c ∈ needed /\ c ≠ "Name"%string /\ c ∉ columns df) as Hiff.
  { intros c. rewrite elem_of_missing_columns. split.
    - intros [Hc Hnot]. assert (c ≠ "Name"%string) as HcN by (intros ->; done).
      rewrite Hcols in Hnot by done. done.
    - intros (Hc & HcN & Hnot). by rewrite Hcols. }
  assert (missing_columns df' ≠ []) as Hne.
  { intros Hnil. assert (c0 ∈ missing_columns df') as Hin by by apply Hiff.
    rewrite Hnil in Hin. by apply not_elem_of_nil in Hin. }
  rewrite bool_decide_eq_true_2 in Hread by done.
  exists (Py.sorted (missing_columns df')).
  assert (forall c, c ∈ Py.sorted (missing_columns df') <-> c ∈ missing_columns df')
    as Hsorted_in.
  { intros c. by rewrite sorted_perm. }
  split; [|split; [|split; [|split; [|split]]]].
  - rewrite !load_read_source, !fmap_app, fmap_cons, !frames_of_app. simpl.
    unfold frames_of at 2. simpl. by rewrite Hread.
  - rewrite !load_read_source, !fmap_app, fmap_cons, !problems_of_app. simpl.
    unfold problems_of at 2. simpl. by rewrite Hread.
  - intros c. by rewrite Hsorted_in.
  - rewrite sorted_perm. apply NoDup_missing_columns.
  - apply sorted_Sorted.
  - intros Honly. apply NoDup_only.
    + rewrite sorted_perm. apply NoDup_missing_columns.
    + intros c (Hc & HcN & Hnot)%Hsorted_in%Hiff. by apply Honly.
    + intros Hnil. apply Hne. apply Permutation_nil_r.
      by rewrite <- Hnil, sorted_perm.
Qed.


(** ** Sorting *)

Lemma key_leb_le (a b : option Z) : key_leb a b = true <-> key_le a b.
Proof.
  destruct a as [x|], b as [y|]; simpl; try done.
  apply Z.leb_le.
Qed.

Lemma key_le_total (a b : option Z) : key_le a b \/ key_le b a.
Proof. destruct a as [x|], b as [y|]; simpl; auto; lia. Qed.

Global Instance key_le_trans : Transitive key_le.
Proof. intros [x|] [y|] [z|]; simpl; try done; lia. Qed.


Lemma goes_before_le (strict : bool) (a b : option Z) :
  goes_before strict a b = true -> key_le a b.
Proof.
  unfold goes_before. destruct strict.
  - intros Hn%negb_true_iff. destruct (key_le_total a b) as [|Hba]; [done|].
    apply key_leb_le in Hba. congruence.
  - apply key_leb_le.
Qed.

Lemma goes_before_ge (strict : bool) (a b : option Z) :
  goes_before strict a b = false -> key_le b a.
Proof.
  unfold goes_before. destruct strict.
  - intros Hn%negb_false_iff. by apply key_leb_le.
  - intros Hn. destruct (key_le_total a b) as [Hab|]; [|done].
    apply key_leb_le in Hab. congruence.
Qed.

(** In range, the keys along an indexer are read off position by position. *)
Lemma keys_along_fmap (ks : list (option Z)) (indexer : list nat) :
  Forall (fun i => (i < length ks)%nat) indexer ->
  keys_along ks indexer = (fun i => mjoin (ks !! i)) <$> indexer.
Proof.
  unfold keys_along. induction 1 as [|i indexer Hi _ IH]; [done|].
  destruct (lookup_lt_is_Some_2 ks i Hi) as [k Hk].
  rewrite fmap_cons, <- IH. cbn. by rewrite Hk.
Qed.

Lemma insert_index_perm (strict : bool) (ks : list (option Z)) (i : nat)
    (indexer : list nat) :
  insert_index strict ks i indexer ≡ₚ i :: indexer.
Proof.
  induction indexer as [|j indexer IH]; simpl; [done|].
  destruct (goes_before _ _ _); [done|].
  by rewrite IH, Permutation_swap.
Qed.

Lemma insert_index_Sorted (strict : bool) (ks : list (option Z)) (i : nat)
    (indexer : list nat) :
  Sorted key_le ((fun i => mjoin (ks !! i)) <$> indexer) ->
  Sorted key_le ((fun i => mjoin (ks !! i)) <$> insert_index strict ks i indexer).
Proof.
  induction indexer as [|j indexer IH]; simpl; intros Hs.
  - by repeat constructor.
  - destruct (goes_before _ _ _) eqn:Hij; simpl.
    + constructor; [done|]. constructor. by eapply goes_before_le.
    + apply Sorted_inv in Hs as [Hs Hhd]. constructor; [by apply IH|].
      apply goes_before_ge in Hij.
      destruct indexer as [|j' indexer]; simpl in *.
      * by constructor.
      * destruct (goes_before _ _ _); simpl; constructor; [done|].
        by apply HdRel_inv in Hhd.
Qed.

Lemma insertion_argsort_perm (strict : bool) (ks : list (option Z)) :
  insertion_argsort strict ks ≡ₚ seq 0 (length ks).
Proof.
  unfold insertion_argsort.
  induction (seq 0 (length ks)) as [|i l IH]; simpl; [done|].
  by rewrite insert_index_perm, IH.
Qed.

(** Both insertion sorts keep the contract of [argsort]. *)
Lemma insertion_argsort_ok (strict : bool) : argsort_ok (insertion_argsort strict).
Proof.
  split.
  - apply insertion_argsort_perm.
  - intros ks. rewrite keys_along_fmap.
    + unfold insertion_argsort.
      induction (seq 0 (length ks)) as [|i l IH]; simpl; [constructor|].
      by apply insert_index_Sorted.
    + rewrite Forall_forall. intros i Hi.
      rewrite insertion_argsort_perm in Hi.
      apply elem_of_seq in Hi. lia.
Qed.

(** Taking the rows along a permutation of the positions gives the same
    rows in another order. *)
Lemma omap_lookup_seq_app {A} (pre l : list A) :
  omap (fun i => (pre ++ l) !! i) (seq (length pre) (length l)) = l.
Proof.
  revert pre. induction l as [|x l IH]; intros pre; [done|].
  cbn [length seq]. cbn.
  rewrite list_lookup_middle by done. f_equal.
  specialize (IH (pre ++ [x])). rewrite <- app_assoc, length_app in IH.
  simpl in IH. by rewrite Nat.add_1_r in IH.
Qed.

Lemma omap_lookup_seq {A} (l : list A) :
  omap (fun i => l !! i) (seq 0 (length l)) = l.
Proof. apply (omap_lookup_seq_app [] l). Qed.

Lemma take_rows_perm (indexer : list nat) (df : DataFrame) :
  indexer ≡ₚ seq 0 (length (rows df)) -> rows (take indexer df) ≡ₚ rows df.
Proof.
  intros Hp. unfold take; simpl. rewrite Hp. by rewrite omap_lookup_seq.
Qed.

Lemma sort_values_perm (argsort : list (option Z) -> list nat) (by_ : string)
    (df : DataFrame) :
  argsort_ok argsort -> rows (sort_values argsort by_ df) ≡ₚ rows df.
Proof.
  intros [Hperm _]. apply take_rows_perm.
  rewrite Hperm. by rewrite length_fmap.
Qed.

Lemma sort_values_keys (argsort : list (option Z) -> list nat) (df : DataFrame) :
  date_keys (sort_values argsort "date" df) =
    keys_along (date_keys df) (argsort (date_keys df)).
Proof.
  unfold date_keys, sort_values, take, keys_along; simpl.
  rewrite list_fmap_omap. apply list_omap_ext.
  apply Forall2_same_length_lookup_2; [done|].
  intros i x y Hx Hy. assert (x = y) as -> by congruence.
  by rewrite list_lookup_fmap.
Qed.

Lemma sort_values_Sorted (argsort : list (option Z) -> list nat) (df : DataFrame) :
  argsort_ok argsort -> Sorted key_le (date_keys (sort_values argsort "date" df)).
Proof. intros [_ Hs]. rewrite sort_values_keys. apply Hs. Qed.

(** ** The filtered subset *)

Lemma in_range_spec (start_d end_d : Z) (c : Cell) :
  in_range start_d end_d c = true <-> exists t, c = Stamp t /\ start_d <= t <= end_d.
Proof.
  destruct c as [x|s|t|]; simpl; try (split; [done|by intros (t' & ? & _)]).
  rewrite andb_true_iff, !Z.leb_le. split.
  - intros Ht. by exists t.
  - intros (t' & [= ->] & Ht). done.
Qed.

(** The two masks of lines 84-85 keep the rows that match, in their order. *)
Lemma mask_rows (selected_company : string) (start_d end_d : Z) (all_data : DataFrame) :
  rows (date_mask start_d end_d (query_name selected_company all_data)) =
    filter (matches selected_company start_d end_d) (rows all_data).
Proof.
  unfold date_mask, query_name; simpl. rewrite list_filter_filter.
  apply list_filter_iff. intros ir. unfold matches.
  rewrite in_range_spec. tauto.
Qed.

Lemma filtered_perm (argsort : list (option Z) -> list nat)
    (selected_company : string) (start_d end_d : Z) (all_data : DataFrame) :
  argsort_ok argsort ->
  rows (filtered argsort selected_company start_d end_d all_data)
    ≡ₚ filter (matches selected_company start_d end_d) (rows all_data).
Proof.
  intros Hok. unfold filtered. by rewrite sort_values_perm, mask_rows.
Qed.

Lemma filtered_columns (argsort : list (option Z) -> list nat)
    (selected_company : string) (start_d end_d : Z) (all_data : DataFrame) :
  columns (filtered argsort selected_company start_d end_d all_data) = columns all_data.
Proof. done. Qed.

Lemma StronglySorted_lookup {A} (R : relation A) (l : list A) (i j : nat) (x y : A) :
  StronglySorted R l -> (i < j)%nat -> l !! i = Some x -> l !! j = Some y -> R x y.
Proof.
  intros Hs. revert i j. induction Hs as [|a l Hs IH Hall]; intros i j Hij Hi Hj.
  - done.
  - destruct j as [|j]; [lia|]. simpl in Hj. destruct i as [|i]; simpl in Hi.
    + injection Hi as ->. rewrite Forall_forall in Hall.
      apply Hall. by eapply list_elem_of_lookup_2.
    + apply (IH i j); [lia|done..].
Qed.

Lemma filtered_elem (argsort : list (option Z) -> list nat)
    (selected_company : string) (start_d end_d : Z) (all_data : DataFrame)
    (ir : nat * Row) :
  argsort_ok argsort ->
  ir ∈ rows (filtered argsort selected_company start_d end_d all_data) <->
  ir ∈ rows all_data /\ matches selected_company start_d end_d ir.
Proof.
  intros Hok. rewrite (filtered_perm _ _ _ _ _ Hok), list_elem_of_filter. tauto.
Qed.

(** A symbol that no row has gives the view without rows. *)
Lemma filtered_absent (argsort : list (option Z) -> list nat)
    (selected_company : string) (start_d end_d : Z) (all_data : DataFrame) :
  argsort_ok argsort ->
  (forall ir, ir ∈ rows all_data -> cell ir.2 "Name" ≠ Text selected_company) ->
  filtered argsort selected_company start_d end_d all_data
    = mkDataFrame (columns all_data) [].
Proof.
  intros Hok Habsent.
  assert (rows (filtered argsort selected_company start_d end_d all_data) = []) as Hnil.
  { apply elem_of_nil_inv. intros ir [Hrow [HN _]]%filtered_elem; [|done].
    by apply (Habsent ir). }
  destruct (filtered argsort selected_company start_d end_d all_data) as [cs rs] eqn:E.
  pose proof (filtered_columns argsort selected_company start_d end_d all_data) as Hc.
  rewrite E in Hc. simpl in *. by subst.
Qed.

(** C1. For every dataset, symbol and inclusive date range, the filter
    (lines 84-85, a total function: nothing is raised) returns exactly the
    rows whose symbol cell is the chosen symbol and whose normalised date
    lies in the range, each as often as the dataset has it; every returned
    row is a row of the dataset with that symbol and such a date; the dates
    ascend along the result; the columns are those of the dataset; and a
    symbol that no row has gives the empty view. *)
Theorem filtered_exact (argsort : list (option Z) -> list nat)
    (all_data : DataFrame) (selected_company : string) (start_d end_d : Z) :
  argsort_ok argsort ->
  rows (filtered argsort selected_company start_d end_d all_data)
    ≡ₚ filter (matches selected_company start_d end_d) (rows all_data)
  /\ (forall ir, ir ∈ rows (filtered argsort selected_company start_d end_d all_data) ->
        ir ∈ rows all_data
        /\ cell ir.2 "Name" = Text selected_company
        /\ exists t, cell ir.2 "date" = Stamp t /\ start_d <= t <= end_d)
  /\ (forall i j r1 r2,
        (i < j)%nat ->
        rows (filtered argsort selected_company start_d end_d all_data) !! i = Some r1 ->
        rows (filtered argsort selected_company start_d end_d all_data) !! j = Some r2 ->
        exists t1 t2,
          cell r1.2 "date" = Stamp t1 /\ cell r2.2 "date" = Stamp t2 /\ t1 <= t2)
  /\ columns (filtered argsort selected_company start_d end_d all_data) = columns all_data
  /\ ((forall ir, ir ∈ rows all_data -> cell ir.2 "Name" ≠ Text selected_company) ->
      filtered argsort selected_company start_d end_d all_data
        = mkDataFrame (columns all_data) []).
Proof.
  intros Hok.
  pose proof (filtered_perm argsort selected_company start_d end_d all_data Hok) as Hperm.
  assert (forall ir, ir ∈ rows (filtered argsort selected_company start_d end_d all_data) ->
            ir ∈ rows all_data
            /\ cell ir.2 "Name" = Text selected_company
            /\ exists t, cell ir.2 "date" = Stamp t /\ start_d <= t <= end_d) as Hin.
  { intros ir [Hir [HN Hd]]%filtered_elem; done. }
  split; [done|]. split; [done|]. split; [|split; [done|]].
  - intros i j r1 r2 Hij H1 H2.
    destruct (Hin r1) as (_ & _ & t1 & Ht1 & _); [by eapply list_elem_of_lookup_2|].
    destruct (Hin r2) as (_ & _ & t2 & Ht2 & _); [by eapply list_elem_of_lookup_2|].
    exists t1, t2. split; [done|]. split; [done|].
    pose proof (sort_values_Sorted argsort
      (date_mask start_d end_d (query_name selected_company all_data)) Hok) as Hs.
    apply Sorted_StronglySorted in Hs; [|exact key_le_trans].
    assert (key_le (Some t1) (Some t2)) as Hle; [|done].
    apply (StronglySorted_lookup key_le _ i j _ _ Hs Hij).
    + unfold date_keys. fold (filtered argsort selected_company start_d end_d all_data).
      by rewrite list_lookup_fmap, H1; simpl; rewrite Ht1.
    + unfold date_keys. fold (filtered argsort selected_company start_d end_d all_data).
      by rewrite list_lookup_fmap, H2; simpl; rewrite Ht2.
  - by apply filtered_absent.
Qed.

(** ** Ties of the sort *)









(** ** The rolling mean *)

Lemma length_omap_le {A B} (f : A -> option B) (l : list A) :
  (length (omap f l) <= length l)%nat.
Proof.
  induction l as [|x l IH]; [done|]. cbn. destruct (f x); simpl; unfold omap in *; lia.
Qed.

Section rolling.
Variables (w : nat) (values : list (option Qc)).

Lemma sum_Qc_snoc (l : list Qc) (x : Qc) : sum_Qc (l ++ [x]) = (sum_Qc l + x)%Qc.
Proof.
  unfold sum_Qc. induction l as [|y l IH]; simpl.
  - ring.
  - rewrite IH. ring.
Qed.

Lemma observed_snoc (l : list (option Qc)) (v : option Qc) :
  observed (l ++ [v]) = add_mean v (observed l).
Proof.
  unfold observed, add_mean. rewrite omap_app. destruct v as [x|]; simpl.
  - by rewrite sum_Qc_snoc, length_app, Nat.add_1_r.
  - by rewrite app_nil_r.
Qed.

Lemma observed_cons (l : list (option Qc)) (v : option Qc) :
  remove_mean v (observed (v :: l)) = observed l.
Proof.
  unfold observed, remove_mean. destruct v as [x|]; simpl; [|done].
  f_equal. unfold omap. ring.
Qed.

Lemma held_step (k : nat) :
  (1 <= w)%nat -> (k < length values)%nat ->
  add_mean (mjoin (values !! k))
    (if (w <=? k)%nat then remove_mean (mjoin (values !! (k - w)%nat)) (observed (held w values k))
     else observed (held w values k))
  = observed (held w values (S k)).
Proof.
  intros Hw Hk. unfold held.
  destruct (lookup_lt_is_Some_2 values k Hk) as [v Hv].
  rewrite (take_S_r values k v Hv), Hv. simpl mjoin.
  destruct (Nat.leb_spec w k) as [Hle|Hlt].
  - replace (S k - w)%nat with (S (k - w)) by lia.
    assert (firstn k values !! (k - w)%nat = values !! (k - w)%nat) as Hlook
      by (apply lookup_take_lt; lia).
    destruct (lookup_lt_is_Some_2 values (k - w)) as [u Hu]; [lia|].
    rewrite Hu in Hlook |- *. simpl mjoin.
    rewrite (drop_S _ _ _ Hlook), observed_cons.
    rewrite drop_app_le by (rewrite length_take; lia).
    by rewrite observed_snoc.
  - replace (S k - w)%nat with 0%nat by lia.
    replace (k - w)%nat with 0%nat by lia.
    rewrite !drop_0. by rewrite observed_snoc.
Qed.

Lemma roll_invariant (k : nat) :
  (1 <= w)%nat -> (k <= length values)%nat ->
  foldl (roll_step w values) ((0%Qc, 0%nat), []) (seq 0 k) =
    (observed (held w values k),
     (fun i => calc_mean w (observed (held w values (S i)))) <$> seq 0 k).
Proof.
  intros Hw. induction k as [|k IH]; intros Hk.
  - done.
  - rewrite seq_S, foldl_app, IH by lia. cbn [foldl Nat.add].
    unfold roll_step at 1. cbn [fst snd].
    rewrite held_step by lia. by rewrite fmap_app.
Qed.

Lemma rolling_mean_held :
  (1 <= w)%nat ->
  rolling_mean w values =
    (fun i => calc_mean w (observed (held w values (S i)))) <$> seq 0 (length values).
Proof. intros Hw. unfold rolling_mean. by rewrite roll_invariant. Qed.

(** The numbers present in a list are all of it exactly when the list has
    no gap. *)
Lemma mapM_id_omap (l : list (option Qc)) :
  mapM id l = if decide (length (omap id l) = length l) then Some (omap id l) else None.
Proof.
  induction l as [|[x|] l IH]; simpl; [done| |].
  - rewrite IH. cbn. repeat case_decide; unfold omap in *; simpl in *; try done; lia.
  - clear IH. cbn. case_decide as Hlen; [|done].
    pose proof (length_omap_le id l) as Hle. unfold omap in *. lia.
Qed.

Lemma calc_mean_held (i : nat) :
  (1 <= w)%nat -> (i < length values)%nat ->
  calc_mean w (observed (held w values (S i))) = window_mean w values i.
Proof.
  intros Hw Hi. unfold window_mean, calc_mean, window, held, observed; simpl fst; simpl snd.
  pose proof (length_omap_le id (skipn (S i - w) (firstn (S i) values))) as Hle.
  rewrite length_drop, length_take in Hle.
  destruct (Nat.leb_spec w (S i)) as [Hwi|Hwi].
  - assert (skipn (S i - w) (firstn (S i) values) = firstn w (skipn (S i - w) values)) as ->.
    { rewrite take_drop_commute. f_equal. f_equal. lia. }
    rewrite mapM_id_omap.
    assert (length (firstn w (skipn (S i - w) values)) = w) as Hlen
      by (rewrite length_take, length_drop; lia).
    rewrite Hlen. case_decide as Hall.
    + rewrite Hall. rewrite Nat.leb_refl.
      destruct (Nat.ltb_spec 0 w); [|lia]. simpl. unfold mean. by rewrite Hall.
    + destruct (Nat.leb_spec w (length (omap id (firstn w (skipn (S i - w) values)))));
        [|done].
      pose proof (length_omap_le id (firstn w (skipn (S i - w) values))) as Hle'.
      rewrite Hlen in Hle'. exfalso. lia.
  - destruct (Nat.leb_spec w (length (omap id (skipn (S i - w) (firstn (S i) values)))));
      [|done].
    exfalso. lia.
Qed.
End rolling.

Lemma rolling_mean_length (w : nat) (values : list (option Qc)) :
  length (rolling_mean w values) = length values.
Proof.
  unfold rolling_mean.
  assert (forall l acc, length (foldl (roll_step w values) acc l).2 = (length acc.2 + length l)%nat)
    as Hgen.
  { induction l as [|i l IH]; intros acc; simpl; [lia|].
    rewrite IH. unfold roll_step; simpl. rewrite length_app. simpl. lia. }
  rewrite Hgen. simpl. by rewrite length_seq.
Qed.

(** Position by position, the running computation gives the mean of the
    window, also on a column with gaps: a position is defined exactly when
    its window is full and has no gap. *)
Lemma rolling_mean_lookup (w : nat) (values : list (option Qc)) (i : nat) :
  (1 <= w)%nat -> (i < length values)%nat ->
  rolling_mean w values !! i = Some (window_mean w values i).
Proof.
  intros Hw Hi. rewrite rolling_mean_held by done.
  rewrite list_lookup_fmap, lookup_seq_lt by done. simpl.
  by rewrite calc_mean_held.
Qed.

Lemma mapM_id_Some (l : list Qc) : mapM id (Some <$> l) = Some l.
Proof. induction l as [|x l IH]; [done|]. cbn in *. by rewrite IH. Qed.

Lemma window_fmap {A B} (f : A -> B) (w : nat) (l : list A) (i : nat) :
  window w (f <$> l) i = f <$> window w l i.
Proof. unfold window. by rewrite fmap_take, fmap_drop. Qed.

(** On a column without gaps the window mean is the mean of the [w] numbers,
    from position [w - 1] on. *)
Lemma window_mean_full (w : nat) (xs : list Qc) (i : nat) :
  window_mean w (Some <$> xs) i =
    if (w <=? S i)%nat then Some (mean (window w xs i)) else None.
Proof.
  unfold window_mean. destruct (w <=? S i)%nat; [|done].
  by rewrite window_fmap, mapM_id_Some.
Qed.

Lemma rolling_mean_full (w : nat) (xs : list Qc) :
  (1 <= w)%nat ->
  rolling_mean w (Some <$> xs) =
    (fun i => if (w <=? S i)%nat then Some (mean (window w xs i)) else None)
      <$> seq 0 (length xs).
Proof.
  intros Hw. apply list_eq. intros i.
  destruct (decide (i < length xs)%nat) as [Hi|Hi].
  - rewrite rolling_mean_lookup by (by rewrite ?length_fmap).
    rewrite list_lookup_fmap, lookup_seq_lt by done. simpl.
    by rewrite window_mean_full.
  - rewrite !lookup_ge_None_2; [done| |].
    + rewrite length_fmap, length_seq. lia.
    + rewrite rolling_mean_length, length_fmap. lia.
Qed.

Lemma defined_count_from (g : nat -> option Qc) (a n : nat) :
  (forall i, is_Some (g i) <-> (a <= i)%nat) ->
  defined_count (g <$> seq 0 n) = (n - a)%nat.
Proof.
  intros Hg. unfold defined_count. induction n as [|n IH]; [done|].
  rewrite seq_S, fmap_app, filter_app, length_app, IH. simpl.
  rewrite filter_cons, filter_nil.
  destruct (decide (is_Some (g n))) as [Hs|Hs]; rewrite Hg in Hs; simpl; lia.
Qed.

(** C2. For a sequence of [n] field values and a window [w >= 2], the
    rolling mean has [n] positions; position [i] holds the arithmetic mean
    of the values at [i - w + 1 .. i] when these [w] positions exist, and is
    missing otherwise; exactly [max 0 (n - w + 1)] positions are defined, and
    they are the last ones; on 1, 2, 3, 4, 5 with window 3 the result is
    NA, NA, 2, 3, 4. *)
Theorem rolling_mean_spec (w : nat) (xs : list Qc) :
  (2 <= w)%nat ->
  length (rolling_mean w (Some <$> xs)) = length xs
  /\ (forall i, (i < length xs)%nat ->
        rolling_mean w (Some <$> xs) !! i =
          Some (if (w <=? S i)%nat then Some (mean (window w xs i)) else None))
  /\ Z.of_nat (defined_count (rolling_mean w (Some <$> xs)))
       = Z.max 0 (Z.of_nat (length xs) - Z.of_nat w + 1)
  /\ (forall i, is_Some (mjoin (rolling_mean w (Some <$> xs) !! i)) <->
        (length xs - defined_count (rolling_mean w (Some <$> xs)) <= i < length xs)%nat)
  /\ rolling_mean 3 (Some <$> (Qc_of_Z <$> [1; 2; 3; 4; 5]))
       = [None; None; Some (Qc_of_Z 2); Some (Qc_of_Z 3); Some (Qc_of_Z 4)].
Proof.
  intros Hw.
  assert (defined_count (rolling_mean w (Some <$> xs)) = (length xs - (w - 1))%nat) as Hcount.
  { rewrite rolling_mean_full by lia. apply defined_count_from.
    intros i. destruct (Nat.leb_spec w (S i)); split; intros H';
      first [done | lia | by destruct H']. }
  split; [by rewrite rolling_mean_length, length_fmap|].
  split; [|split; [|split]].
  - intros i Hi. rewrite rolling_mean_full by lia.
    by rewrite list_lookup_fmap, lookup_seq_lt.
  - rewrite Hcount. lia.
  - intros i. rewrite Hcount, rolling_mean_full by lia.
    rewrite list_lookup_fmap.
    destruct (decide (i < length xs)%nat) as [Hi|Hi].
    + rewrite lookup_seq_lt by done. simpl.
      destruct (Nat.leb_spec w (S i)); split; intros H';
        first [done | lia | by destruct H'].
    + rewrite lookup_seq_ge by lia. simpl. split; [by intros []|lia].
  - by_evaluation.
Qed.

(** ** Columns along the script *)

Lemma concat_columns (a b : DataFrame) (c : string) :
  c ∈ columns (concat a b) <-> c ∈ columns a \/ c ∈ columns b.
Proof.
  unfold concat; simpl. rewrite elem_of_app, list_elem_of_filter.
  destruct (decide (c ∈ columns a)); tauto.
Qed.

Lemma reindex_nil (l : list Row) : reindex l = [] <-> l = [].
Proof. unfold reindex. destruct l; simpl; split; done. Qed.

(** Every frame the loop appends has the needed columns. *)
Lemma read_source_columns (fs : FileSystem) (file : string) (df : DataFrame) :
  read_source fs file = inr df -> forall c, c ∈ needed -> c ∈ columns df.
Proof.
  unfold read_source. destruct (fs file) as [|e|df0]; try done.
  destruct (with_name file df0) as [e|df1]; try done.
  case_bool_decide as Hm; [done|]. intros [= <-] c Hc.
  destruct (decide (c ∈ columns df1)) as [|Hnot]; [done|]. exfalso.
  assert (c ∈ missing_columns df1) as Hin by by apply elem_of_missing_columns.
  assert (missing_columns df1 = []) as Hnil by (by destruct (missing_columns df1)).
  rewrite Hnil in Hin. by apply not_elem_of_nil in Hin.
Qed.

Lemma foldl_concat_columns (frames : list DataFrame) (acc : DataFrame) (c : string) :
  c ∈ columns acc -> c ∈ columns (foldl concat acc frames).
Proof.
  revert acc. induction frames as [|df frames IH]; intros acc Hc; [done|].
  simpl. apply IH. apply concat_columns. auto.
Qed.


Lemma assign_series_columns (c : string) (vs : list Cell) (df : DataFrame) :
  c ∈ columns df -> columns (assign_series c vs df) = columns df.
Proof. intros Hc. unfold assign_series; simpl. by rewrite bool_decide_eq_true_2. Qed.

Lemma column_inr (c : string) (df : DataFrame) (cs : list Cell) :
  column c df = inr cs -> c ∈ columns df /\ cs = cells_of c df.
Proof. unfold column. case_bool_decide; [|done]. by intros [= <-]. Qed.

Lemma to_datetime_columns (parse : string -> option Z) (df df' : DataFrame) :
  to_datetime parse df = inr df' -> columns df' = columns df.
Proof.
  unfold to_datetime. destruct (column "date" df) as [e|cs] eqn:Hc; [done|].
  destruct (sequence _) as [e|ts]; [done|]. intros [= <-].
  apply assign_series_columns. by apply column_inr in Hc as [? _].
Qed.

(** ** The volume metric *)

(** C8. With the volume metric chosen, lines 88-90 do nothing: the subset
    is handed on as it is, no moving-average column is made; and in a run
    of the script that reaches its end the subset is the filtered one and
    its columns are those of the combined dataset. *)
Theorem volume_skips_moving_averages (lib : Library) (fs : FileSystem)
    (files : list string) (w : Widgets) :
  selected_metric w = "volume"%string ->
  (forall dfc, moving_averages (selected_metric w) (ma_1 w) (ma_2 w) dfc = inr dfc)
  /\ (forall dfc c notes,
        run lib fs files w = Rendered dfc c notes ->
        columns dfc = columns (load fs files).1
        /\ exists all_data,
             to_datetime (parse_date lib) (load fs files).1 = inr all_data
             /\ dfc = filtered (argsort lib) (selected_company w) (start_d w) (end_d w)
                        all_data).
Proof.
  intros Hm. split.
  - intros dfc. unfold moving_averages. rewrite Hm. by rewrite bool_decide_eq_false_2 by auto.
  - intros dfc c notes. unfold run.
    destruct (load fs files) as [all_data problems]; simpl.
    destruct (empty all_data); [done|].
    destruct (to_datetime (parse_date lib) all_data) as [e|all_data'] eqn:Hd; [done|].
    unfold moving_averages. rewrite Hm. rewrite bool_decide_eq_false_2 by auto.
    destruct (corr _ _ _) as [e|m]; [done|]. intros [= <- <- <-].
    split; [|by eexists].
    rewrite filtered_columns. by eapply to_datetime_columns.
Qed.

(** ** The correlation matrix *)


Lemma corr_entry_nil (coefficient : Method -> list (Qc * Qc) -> option Qc)
    (method : Method) : corr_entry coefficient method [] [] = None.
Proof. done. Qed.






Lemma metrics_needed (c : string) : c ∈ metrics -> c ∈ needed.
Proof. unfold metrics, needed. rewrite !elem_of_cons, !elem_of_nil. tauto. Qed.




(** Rounding gives the nearest multiple of 1/100. *)
Lemma rint_near (x : Qc) :
  (Qc_of_Z (rint x) - x <= Q2Qc (1 # 2))%Qc /\ (x - Qc_of_Z (rint x) <= Q2Qc (1 # 2))%Qc.
Proof.
  pose proof (Qfloor_le x) as Hlo. pose proof (Qlt_floor x) as Hhi.
  unfold rint, Qccompare.
  destruct (Qcompare_spec (x - Qc_of_Z (Qfloor x))%Qc (Q2Qc (1 # 2))) as [He|Hl|Hg];
    [destruct (Z.even (Qfloor x))| |];
    unfold Qcle, Qclt, Qcminus, Qcplus, Qcopp, Q2Qc, Qc_of_Z in *; simpl in *;
    rewrite ?Qred_correct in *; rewrite ?inject_Z_plus in *;
    rewrite ?Qred_correct; change (inject_Z 1) with 1%Q in *; split; lra.
Qed.


Lemma Matrix_round_entry (ndigits : nat) (m : Matrix) (i j : nat) :
  entry (Matrix_round ndigits m) i j =
    (fun v : option Qc => round_to ndigits <$> v) <$> entry m i j.
Proof.
  unfold entry, Matrix_round; simpl. rewrite list_lookup_fmap.
  destruct (entries m !! i) as [row|]; simpl; [|done].
  by rewrite list_lookup_fmap.
Qed.


(** ** What a run can raise *)




Lemma assign_series_grows (c : string) (vs : list Cell) (df : DataFrame) (x : string) :
  x ∈ columns df -> x ∈ columns (assign_series c vs df).
Proof.
  intros Hx. unfold assign_series; simpl. case_bool_decide; [done|].
  apply elem_of_app. by left.
Qed.






(** ** The script as a whole *)

Lemma read_source_cases (fs : FileSystem) (file : string) :
  match fs file with
  | Absent => read_source fs file = inl ("Missing file: " +:+ file)
  | Unreadable e => read_source fs file = inl ("Error reading " +:+ file +:+ ": " +:+ e)
  | Parsed df =>
      exists df',
        with_name file df = inr df'
        /\ read_source fs file =
             if bool_decide (missing_columns df' ≠ [])
             then inl (missing_message file (missing_columns df'))
             else inr df'
  end.
Proof.
  destruct (fs file) as [|e|df] eqn:Hfs; unfold read_source; rewrite Hfs; try done.
  destruct (read_source_parsed fs file df Hfs) as (df' & Hw & _ & _ & _).
  exists df'. by rewrite Hw.
Qed.


(** ** The model on the example data *)

Example load_example :
  (load example_fs company_list).2 =
    ["Error reading AMZN_data.csv: No columns to parse from file";
     "GOOG_data.csv missing columns: volume";
     "Missing file: MSFT_data.csv"]%string
  /\ index (load example_fs company_list).1 = [0; 1; 2]%nat
  /\ columns (load example_fs company_list).1 = needed.
Proof. by vm_compute. Qed.

Example filtered_example :
  index (filtered stable_argsort "AAPL" 1 3 example_data) = [2; 3; 0]%nat.
Proof. by vm_compute. Qed.

Example rolling_mean_gap :
  rolling_mean 2 [Some (Qc_of_Z 1); None; Some (Qc_of_Z 3); Some (Qc_of_Z 5)]
    = [None; None; None; Some (Qc_of_Z 4)].
Proof. by_evaluation. Qed.

(** Witness of C1: the filter on the example dataset. *)
Lemma filtered_exact_witness :
  argsort_ok stable_argsort
  /\ rows (filtered stable_argsort "AAPL" 1 3 example_data)
       ≡ₚ filter (matches "AAPL" 1 3) (rows example_data)
  /\ (forall i j r1 r2,
        (i < j)%nat ->
        rows (filtered stable_argsort "AAPL" 1 3 example_data) !! i = Some r1 ->
        rows (filtered stable_argsort "AAPL" 1 3 example_data) !! j = Some r2 ->
        exists t1 t2,
          cell r1.2 "date" = Stamp t1 /\ cell r2.2 "date" = Stamp t2 /\ t1 <= t2).
Proof.
  split; [apply insertion_argsort_ok|].
  destruct (filtered_exact stable_argsort example_data "AAPL" 1 3
              (insertion_argsort_ok false)) as (Hperm & _ & Hsorted & _).
  by split.
Defined.

(** Witness of C2: window 3 on five values. *)
Lemma rolling_mean_spec_witness :
  (2 <= 3)%nat
  /\ length (rolling_mean 3 (Some <$> (Qc_of_Z <$> [1; 2; 3; 4; 5]))) = 5%nat
  /\ Z.of_nat (defined_count (rolling_mean 3 (Some <$> (Qc_of_Z <$> [1; 2; 3; 4; 5])))) = 3.
Proof.
  split; [lia|].
  destruct (rolling_mean_spec 3 (Qc_of_Z <$> [1; 2; 3; 4; 5])) as (Hlen & _ & Hcount & _);
    [lia|].
  by split.
Defined.

(** Witness of C3: the file without a volume column, third of the four. *)
Lemma missing_columns_skip_witness :
  example_fs "GOOG_data.csv" = Parsed goog_csv
  /\ exists missing,
       (load example_fs (["AAPL_data.csv"; "AMZN_data.csv"] ++ "GOOG_data.csv" :: ["MSFT_data.csv"])).1
         = (load example_fs (["AAPL_data.csv"; "AMZN_data.csv"] ++ ["MSFT_data.csv"])).1
       /\ (load example_fs (["AAPL_data.csv"; "AMZN_data.csv"] ++ "GOOG_data.csv" :: ["MSFT_data.csv"])).2
            = (load example_fs ["AAPL_data.csv"; "AMZN_data.csv"]).2
              ++ [Path.name "GOOG_data.csv" +:+ " missing columns: " +:+ Py.join ", " missing]
              ++ (load example_fs ["MSFT_data.csv"]).2
       /\ missing = ["volume"%string].
Proof.
  split; [reflexivity|].
  destruct (missing_columns_skip example_fs ["AAPL_data.csv"; "AMZN_data.csv"]%string
              ["MSFT_data.csv"]%string "GOOG_data.csv" goog_csv)
    as (missing & Hdata & Hproblems & _ & _ & _ & Honly).
  - reflexivity.
  - exists "volume"%string. repeat split; by_evaluation.
  - exists missing. split; [done|]. split; [done|]. apply Honly.
    intros c Hc HN Hnot. unfold needed in Hc.
    each_member Hc; first [done | exfalso; apply Hnot; by_evaluation].
Defined.

(** Witness of C8: a run with the volume metric. *)
Lemma volume_skips_moving_averages_witness :
  selected_metric (example_widgets "AAPL" "volume") = "volume"%string
  /\ (forall dfc, moving_averages "volume" 2 5 dfc = inr dfc)
  /\ exists dfc c notes,
       run reference_library example_fs company_list (example_widgets "AAPL" "volume")
         = Rendered dfc c notes
       /\ columns dfc = columns (load example_fs company_list).1.
Proof.
  split; [reflexivity|].
  destruct (volume_skips_moving_averages reference_library example_fs company_list
              (example_widgets "AAPL" "volume") eq_refl) as [Hskip Hrun].
  split; [exact Hskip|].
  destruct (run reference_library example_fs company_list (example_widgets "AAPL" "volume"))
    as [shown|e|dfc c notes] eqn:E; [by vm_compute in E|by vm_compute in E|].
  exists dfc, c, notes. split; [done|]. by destruct (Hrun dfc c notes eq_refl).
Defined.







(** The run of C5 on the example files: a symbol no row has. *)
Example absent_symbol_run :
  exists dfc,
    run reference_library example_fs company_list (example_widgets "MSFT" "close")
      = Rendered dfc (nan_matrix show_cols) (load example_fs company_list).2
    /\ rows dfc = []
    /\ columns dfc = needed ++ [ma_label 2; ma_label 5].
Proof. eexists. repeat split; vm_compute; reflexivity. Qed.

(** * Further properties of the script *)

(** ** File names that follow the naming scheme *)

Lemma contains_app (c : ascii) (a b : string) :
  Py.contains c (a +:+ b) = Py.contains c a || Py.contains c b.
Proof.
  induction a as [|c' a IH]; simpl; [done|]. by rewrite IH, orb_assoc.
Qed.

Lemma split_free (sep : ascii) (s : string) :
  Py.contains sep s = false -> Py.split sep s = [s].
Proof.
  intros Hfree.
  destruct (split_first sep s) as (piece & pieces & -> & _ & Hno & _).
  by destruct (Hno Hfree) as [-> ->].
Qed.

Lemma split_prefix (sep : ascii) (a b : string) :
  Py.contains sep a = false ->
  Py.split sep (a +:+ String sep b) = a :: Py.split sep b.
Proof.
  induction a as [|c a IH]; simpl.
  - intros _. by rewrite decide_True.
  - intros [Hc Ha]%orb_false_elim. apply bool_decide_eq_false in Hc.
    rewrite decide_False by done. by rewrite IH.
Qed.

Lemma rfind_lower (c : ascii) (s : string) : -1 <= Py.rfind c s.
Proof.
  induction s as [|c' s IH]; simpl; [done|].
  destruct (Z.leb_spec 0 (Py.rfind c s)); [lia|]. case_decide; lia.
Qed.

(** Past a prefix without the character, the last occurrence is the one of
    the rest. *)
Lemma rfind_prefix (c : ascii) (a b : string) :
  Py.contains c a = false ->
  Py.rfind c (a +:+ b) =
    if 0 <=? Py.rfind c b then Py.len a + Py.rfind c b else -1.
Proof.
  unfold Py.len. induction a as [|c' a IH].
  - intros _. pose proof (rfind_lower c b).
    change ("" +:+ b) with b. change (Z.of_nat (String.length "")) with 0.
    destruct (Z.leb_spec 0 (Py.rfind c b)); lia.
  - intros [Hc Ha]%orb_false_elim. apply bool_decide_eq_false in Hc.
    change (String c' a +:+ b) with (String c' (a +:+ b)).
    cbn [Py.rfind]. rewrite IH by done.
    destruct (Z.leb_spec 0 (Py.rfind c b)) as [Hb|Hb].
    + destruct (Z.leb_spec 0 (Z.of_nat (String.length a) + Py.rfind c b)); [|lia].
      cbn [String.length]. lia.
    + simpl. by rewrite decide_False.
Qed.

Lemma slice_to_prefix (a b : string) (i : Z) :
  Py.len a <= i ->
  Py.slice_to i (a +:+ b) = a +:+ Py.slice_to (i - Py.len a) b.
Proof.
  unfold Py.slice_to, Py.len. intros Hi.
  replace (Z.to_nat i) with (String.length a + Z.to_nat (i - Z.of_nat (String.length a)))%nat by lia.
  generalize (Z.to_nat (i - Z.of_nat (String.length a))). intros n.
  replace (Z.to_nat (Z.of_nat (String.length a + n) - Z.of_nat (String.length a))) with n by lia.
  clear Hi. induction a as [|c a IH]; simpl; [done|]. by rewrite IH.
Qed.

(** The stem of [sym_rest] begins with [sym] and the underscore. *)
Lemma stem_prefix (sym rest : string) :
  Py.contains "."%char sym = false ->
  Py.contains "/"%char sym = false ->
  Py.contains "/"%char rest = false ->
  exists rest', Path.stem (sym +:+ String "_"%char rest) = sym +:+ String "_"%char rest'.
Proof.
  intros Hdot Hslash Hrest. set (file := sym +:+ String "_"%char rest).
  assert (Path.name file = file) as Hname.
  { unfold Path.name, Path.parts. rewrite split_free.
    - rewrite filter_cons_True; [done|]. split.
      + unfold file. by destruct sym.
      + unfold file. destruct sym as [|c [|c' sym]]; [done| |done].
        simpl. by intros [= -> _].
    - unfold file. rewrite contains_app, Hslash. simpl. by rewrite Hrest. }
  unfold Path.stem. rewrite Hname.
  destruct (_ && _) eqn:Hcond; [|by exists rest].
  apply andb_true_iff in Hcond as [Hpos%Z.ltb_lt _].
  unfold file in *. rewrite rfind_prefix in * by done.
  destruct (Z.leb_spec 0 (Py.rfind "."%char (String "_"%char rest))) as [Hr|Hr]; [|lia].
  cbn [Py.rfind] in *.
  destruct (Z.leb_spec 0 (Py.rfind "."%char rest)) as [Hr'|Hr'].
  - rewrite slice_to_prefix by lia.
    replace (Py.len sym + (Py.rfind "."%char rest + 1) - Py.len sym)
      with (Z.succ (Py.rfind "."%char rest)) by lia.
    unfold Py.slice_to at 1. rewrite Z2Nat.inj_succ by done.
    cbn [substring]. by eexists.
  - rewrite decide_False in Hr by done. lia.
Qed.

(** X1. A file name made of a symbol, an underscore and anything else gives
    the symbol back on line 40, whatever follows the underscore (further
    underscores, dots, no suffix at all): here the symbol has no underscore,
    dot or slash, and the name has no directory part. *)
Theorem derive_symbol_of_name (sym rest : string) :
  Py.contains "_"%char sym = false ->
  Py.contains "."%char sym = false ->
  Py.contains "/"%char sym = false ->
  Py.contains "/"%char rest = false ->
  derive_symbol (sym +:+ "_" +:+ rest) = Some sym.
Proof.
  intros Hus Hdot Hslash Hrest. unfold derive_symbol.
  change (sym +:+ "_" +:+ rest) with (sym +:+ String "_"%char rest).
  destruct (stem_prefix sym rest Hdot Hslash Hrest) as [rest' ->].
  by rewrite split_prefix.
Qed.

(** Witness of X1: a name with two underscores and two dots. *)
Lemma derive_symbol_of_name_witness :
  Py.contains "_"%char "MSFT" = false
  /\ Py.contains "."%char "MSFT" = false
  /\ Py.contains "/"%char "MSFT" = false
  /\ Py.contains "/"%char "2013_2018.v2.csv" = false
  /\ derive_symbol ("MSFT" +:+ "_" +:+ "2013_2018.v2.csv") = Some "MSFT"%string.
Proof.
  split; [reflexivity|]. split; [reflexivity|]. split; [reflexivity|].
  split; [reflexivity|]. apply derive_symbol_of_name; reflexivity.
Defined.

(** ** The combined dataset, source by source *)

Lemma reindex_snd (l : list Row) : snd <$> reindex l = l.
Proof.
  unfold reindex. rewrite fmap_imap. rewrite <- (list_fmap_id l) at 2.
  rewrite <- imap_const. by apply imap_ext.
Qed.

Lemma reindex_fst (l : list Row) : fst <$> reindex l = seq 0 (length l).
Proof.
  unfold reindex. rewrite fmap_imap.
  rewrite (imap_ext _ (fun j _ => id j) l) by done.
  by rewrite imap_seq_0, list_fmap_id.
Qed.

Lemma foldl_concat_rows (frames : list DataFrame) (acc : DataFrame) :
  snd <$> rows (foldl concat acc frames) =
    (snd <$> rows acc) ++ mjoin ((fun df => snd <$> rows df) <$> frames).
Proof.
  revert acc. induction frames as [|df frames IH]; intros acc.
  - simpl. by rewrite app_nil_r.
  - cbn [foldl]. rewrite IH. unfold concat at 1. cbn [rows].
    rewrite reindex_snd, fmap_cons. cbn [mjoin list_join]. by rewrite <- app_assoc.
Qed.

Lemma foldl_concat_index (frames : list DataFrame) (acc : DataFrame) :
  index acc = seq 0 (length (rows acc)) ->
  index (foldl concat acc frames) = seq 0 (length (rows (foldl concat acc frames))).
Proof.
  revert acc. induction frames as [|df frames IH]; intros acc Hacc; [done|].
  cbn [foldl]. apply IH. unfold index, concat. cbn [rows].
  rewrite reindex_fst. unfold reindex. by rewrite length_imap.
Qed.

Lemma frames_source_rows (fs : FileSystem) (files : list string) :
  mjoin ((fun df => snd <$> rows df) <$> frames_of (read_source fs <$> files))
    = files ≫= source_rows fs.
Proof.
  induction files as [|file files IH]; [done|].
  rewrite fmap_cons, bind_cons, <- IH. unfold frames_of, source_rows.
  change (omap ?f (?x :: ?l)) with (match f x with Some y => y :: omap f l | None => omap f l end).
  by destruct (read_source fs file) as [msg|df].
Qed.

Lemma load_rows (fs : FileSystem) (files : list string) :
  snd <$> rows (load fs files).1 = files ≫= source_rows fs.
Proof.
  rewrite load_read_source. cbn [fst]. rewrite foldl_concat_rows. cbn [rows empty_frame].
  by rewrite fmap_nil, app_nil_l, frames_source_rows.
Qed.

Lemma load_index (fs : FileSystem) (files : list string) :
  index (load fs files).1 = seq 0 (length (rows (load fs files).1)).
Proof. rewrite load_read_source. cbn [fst]. by apply foldl_concat_index. Qed.

(** In the combined dataset the index label of a row is its position. *)
Lemma load_label (fs : FileSystem) (files : list string) (i : nat) (ir : nat * Row) :
  rows (load fs files).1 !! i = Some ir -> ir.1 = i.
Proof.
  intros Hi.
  assert (index (load fs files).1 !! i = Some ir.1) as Hl.
  { unfold index. by rewrite list_lookup_fmap, Hi. }
  rewrite load_index in Hl. apply lookup_seq in Hl as [Hl _]. by rewrite Hl.
Qed.

(** X2. The rows of the combined dataset are the rows of the sources that
    pass, source after source in the order of the file list and row after
    row in the order of each source; their index labels are 0, 1, 2, ... *)
Theorem load_rows_in_order (fs : FileSystem) (files : list string) :
  snd <$> rows (load fs files).1 = files ≫= source_rows fs
  /\ index (load fs files).1 = seq 0 (length (files ≫= source_rows fs))
  /\ (forall before file after,
        files = before ++ file :: after ->
        forall i r,
          source_rows fs file !! i = Some r ->
          rows (load fs files).1 !! (length (before ≫= source_rows fs) + i)%nat
            = Some ((length (before ≫= source_rows fs) + i)%nat, r)).
Proof.
  pose proof (load_rows fs files) as Hrows.
  split; [done|]. split; [by rewrite load_index, <- Hrows, length_fmap|].
  intros before file after -> i r Hi.
  set (k := (length (before ≫= source_rows fs) + i)%nat).
  assert ((snd <$> rows (load fs (before ++ file :: after)).1) !! k = Some r) as Hr.
  { rewrite Hrows, bind_app, bind_cons. unfold k.
    rewrite lookup_app_r by lia. rewrite Nat.add_comm, Nat.add_sub.
    by apply lookup_app_l_Some. }
  apply list_lookup_fmap_Some_1 in Hr as ([j r'] & Hr & Hl).
  pose proof (load_label _ _ _ _ Hl) as Hj. simpl in *. by subst.
Qed.

(** ** What a source gives to the dataset *)

Lemma missing_columns_nil (df : DataFrame) :
  missing_columns df = [] <-> forall c, c ∈ needed -> c ∈ columns df.
Proof.
  split.
  - intros Hnil c Hc. destruct (decide (c ∈ columns df)) as [|Hnot]; [done|].
    assert (c ∈ missing_columns df) as Hin by by apply elem_of_missing_columns.
    rewrite Hnil in Hin. by apply not_elem_of_nil in Hin.
  - intros Hall. apply elem_of_nil_inv. intros c [Hc Hnot]%elem_of_missing_columns.
    by apply Hnot, Hall.
Qed.

(** A source passes exactly when it is read and has the six fields. *)
Lemma read_source_inr (fs : FileSystem) (file : string) :
  (exists df', read_source fs file = inr df') <->
  exists df, fs file = Parsed df
             /\ forall c, c ∈ needed -> c ≠ "Name"%string -> c ∈ columns df.
Proof.
  pose proof (read_source_cases fs file) as Hcases. split.
  - intros [df' Hread]. destruct (fs file) as [|e|df] eqn:Hfs; [congruence..|].
    exists df. split; [done|]. intros c Hc HcN.
    destruct (read_source_parsed fs file df Hfs) as (df1 & _ & _ & Hcols & Hread').
    rewrite Hread in Hread'. case_bool_decide as Hm; [done|]. injection Hread' as ->.
    apply Hcols; [done|]. apply missing_columns_nil; [|done].
    by destruct (missing_columns df1).
  - intros (df & Hfs & Hall).
    destruct (read_source_parsed fs file df Hfs) as (df1 & _ & HN & Hcols & ->).
    exists df1. rewrite bool_decide_eq_false_2; [done|]. intros Hm. apply Hm.
    apply missing_columns_nil. intros c Hc.
    destruct (decide (c = "Name"%string)) as [->|HcN]; [done|].
    apply Hcols; auto.
Qed.

Lemma source_rows_parsed (fs : FileSystem) (file : string) (df : DataFrame) :
  fs file = Parsed df ->
  (forall c, c ∈ needed -> c ≠ "Name"%string -> c ∈ columns df) ->
  exists df', with_name file df = inr df' /\ source_rows fs file = snd <$> rows df'.
Proof.
  intros Hfs Hall.
  destruct (read_source_parsed fs file df Hfs) as (df1 & Hw & HN & Hcols & Hread).
  exists df1. split; [done|]. unfold source_rows. rewrite Hread.
  rewrite bool_decide_eq_false_2; [done|]. intros Hm. apply Hm.
  apply missing_columns_nil. intros c Hc.
  destruct (decide (c = "Name"%string)) as [->|HcN]; [done|].
  apply Hcols; auto.
Qed.

(** X3. What a file that is read and has the six fields gives to the
    combined dataset. With a symbol column of its own, its rows as they are,
    whatever symbols they hold and whatever the file is called. Without one,
    its rows with the symbol derived from the file name in the symbol cell of
    every row, and every other cell as it is. *)
Theorem source_rows_symbol (fs : FileSystem) (file : string) (df : DataFrame) :
  fs file = Parsed df ->
  (forall c, c ∈ needed -> c ≠ "Name"%string -> c ∈ columns df) ->
  ("Name"%string ∈ columns df -> source_rows fs file = snd <$> rows df)
  /\ ("Name"%string ∉ columns df ->
      exists sym,
        derive_symbol file = Some sym
        /\ source_rows fs file = (fun ir => <["Name"%string := Text sym]> ir.2) <$> rows df
        /\ length (source_rows fs file) = length (rows df)
        /\ (forall i r, source_rows fs file !! i = Some r ->
              cell r "Name" = Text sym
              /\ exists ir, rows df !! i = Some ir
                            /\ forall c, c ≠ "Name"%string -> cell r c = cell ir.2 c)).
Proof.
  intros Hfs Hall.
  destruct (source_rows_parsed fs file df Hfs Hall) as (df' & Hw & ->).
  unfold with_name in Hw. split; intros HN.
  - rewrite bool_decide_eq_true_2 in Hw by done. by injection Hw as <-.
  - rewrite bool_decide_eq_false_2 in Hw by done.
    destruct (derive_symbol_Some file) as [sym Hsym]. rewrite Hsym in Hw.
    injection Hw as <-. exists sym. split; [done|].
    assert (snd <$> rows (assign "Name" (Text sym) df)
            = (fun ir => <["Name"%string := Text sym]> ir.2) <$> rows df) as Hrows.
    { unfold assign. cbn [rows]. rewrite <- list_fmap_compose.
      apply list_fmap_ext. by intros _ [j r] _. }
    rewrite Hrows. split; [done|]. split; [by rewrite length_fmap|].
    intros i r Hi. rewrite list_lookup_fmap in Hi.
    destruct (rows df !! i) as [ir|] eqn:Hir; [|done]. injection Hi as <-.
    unfold cell. split; [by rewrite lookup_insert|].
    exists ir. split; [done|]. intros c Hc. by rewrite lookup_insert_ne.
Qed.

(** Witness of X3: the example file without a symbol column. *)
Lemma source_rows_symbol_witness :
  example_fs "AAPL_data.csv" = Parsed aapl_csv
  /\ ("Name"%string ∉ columns aapl_csv)
  /\ exists sym,
       derive_symbol "AAPL_data.csv" = Some sym
       /\ length (source_rows example_fs "AAPL_data.csv") = 3%nat.
Proof.
  split; [reflexivity|].
  assert ("Name"%string ∉ columns aapl_csv) as HN by by_evaluation.
  split; [done|].
  destruct (source_rows_symbol example_fs "AAPL_data.csv" aapl_csv) as [_ Hderived].
  - reflexivity.
  - intros c Hc HcN. unfold needed in Hc. each_member Hc; first [done | by_evaluation].
  - destruct (Hderived HN) as (sym & Hsym & _ & Hlen & _). exists sym. by split.
Defined.

(** ** When nothing is loaded, and when nothing is noted *)

(** A dataset without columns has no rows: the first frame appended brings
    the needed columns. *)
Lemma load_no_columns (fs : FileSystem) (files : list string) :
  columns (load fs files).1 = [] -> rows (load fs files).1 = [].
Proof.
  rewrite load_read_source. cbn [fst].
  assert (Forall (fun df => "date"%string ∈ columns df)
            (frames_of (read_source fs <$> files))) as Hall.
  { rewrite Forall_forall. intros df Hdf. unfold frames_of in Hdf.
    apply list_elem_of_omap in Hdf as (r & Hr & Hdf).
    apply list_elem_of_fmap in Hr as (file & -> & _).
    destruct (read_source fs file) as [|df'] eqn:E; [done|].
    injection Hdf as <-. apply read_source_columns with fs file; [done|]. by_evaluation. }
  destruct (frames_of (read_source fs <$> files)) as [|df frames]; [done|].
  intros Hcols. exfalso. apply Forall_cons in Hall as [Hdf _].
  assert ("date"%string ∈ columns (foldl concat empty_frame (df :: frames))) as Hin.
  { cbn [foldl]. apply foldl_concat_columns, concat_columns. by right. }
  rewrite Hcols in Hin. by apply not_elem_of_nil in Hin.
Qed.

Lemma empty_load (fs : FileSystem) (files : list string) :
  empty (load fs files).1 = true <-> files ≫= source_rows fs = [].
Proof.
  rewrite <- load_rows. unfold empty. rewrite orb_true_iff, !bool_decide_eq_true. split.
  - intros [Hcols|Hr]; [|by rewrite Hr]. by rewrite load_no_columns.
  - intros ?%fmap_nil_inv. by right.
Qed.

Lemma bind_nil_iff {A B} (f : A -> list B) (l : list A) :
  l ≫= f = [] <-> forall x, x ∈ l -> f x = [].
Proof.
  induction l as [|x l IH]; [by split; [intros _ x ?%not_elem_of_nil|]|].
  rewrite bind_cons. split.
  - intros [Hx Hl]%app_eq_nil x' [->|Hin]%elem_of_cons; [done|]. by apply IH.
  - intros Hall. rewrite (Hall x) by apply list_elem_of_here.
    apply IH. intros x' Hin. apply Hall. by apply list_elem_of_further.
Qed.

(** X4. The script stops with "No data loaded" exactly when no source gives
    a row to the dataset: every file is missing, is not read, lacks a field,
    or has no data row. The load errors shown are all the problems found; when
    every file is read and has the six fields but none has a data row, the
    script stops with that report and has no load error to show. *)
Theorem no_data_loaded_iff (lib : Library) (fs : FileSystem) (files : list string)
    (w : Widgets) :
  ((exists shown, run lib fs files w = NoDataLoaded shown) <->
   forall file, file ∈ files -> source_rows fs file = [])
  /\ (forall shown, run lib fs files w = NoDataLoaded shown ->
        shown = problems_of (read_source fs <$> files))
  /\ ((forall file, file ∈ files ->
         exists df, fs file = Parsed df /\ rows df = []
                    /\ forall c, c ∈ needed -> c ≠ "Name"%string -> c ∈ columns df) ->
      run lib fs files w = NoDataLoaded []).
Proof.
  assert (forall shown, run lib fs files w = NoDataLoaded shown <->
            (forall file, file ∈ files -> source_rows fs file = [])
            /\ shown = problems_of (read_source fs <$> files)) as Hrun.
  { intros shown. rewrite <- bind_nil_iff, <- empty_load. unfold run.
    rewrite (load_read_source fs files) at 1. 
    rewrite (load_read_source fs files) at 1. cbn [fst].
    destruct (empty _); [|].
    - split; [by intros [= <-]|by intros [_ ->]].
    - split.
      + destruct (to_datetime _ _); [done|]. destruct (moving_averages _ _ _ _); [done|].
        by destruct (corr _ _ _).
      + by intros [? _]. }
  split; [|split].
  - split.
    + intros [shown Hs]. by apply Hrun in Hs as [? _].
    + intros Hnone. eexists. by apply Hrun.
  - intros shown Hs. by apply Hrun in Hs as [_ ?].
  - intros Hall. apply Hrun. split.
    + intros file Hin. destruct (Hall file Hin) as (df & Hfs & Hrows & Hcols).
      destruct (source_rows_parsed fs file df Hfs Hcols) as (df' & Hw & ->).
      destruct (with_name_inr file df) as (df'' & Hw' & _ & _ & _ & Hlen).
      rewrite Hw in Hw'. injection Hw' as <-. rewrite Hrows in Hlen.
      destruct (rows df'); [done|by simpl in Hlen].
    + symmetry. apply elem_of_nil_inv. intros msg Hmsg. unfold problems_of in Hmsg.
      apply list_elem_of_omap in Hmsg as (r & Hr & Hmsg).
      apply list_elem_of_fmap in Hr as (file & -> & Hin).
      destruct (Hall file Hin) as (df & Hfs & _ & Hcols).
      destruct (proj2 (read_source_inr fs file)) as [df' Hread]; [by exists df|].
      by rewrite Hread in Hmsg.
Qed.

Lemma problems_of_nil {A} (l : list (string + A)) :
  problems_of l = [] <-> forall r, r ∈ l -> exists x, r = inr x.
Proof.
  unfold problems_of. induction l as [|[msg|x] l IH].
  - split; [by intros _ r ?%not_elem_of_nil|done].
  - split; [done|]. intros Hall. destruct (Hall (inl msg)) as [x Hx]; [|done].
    apply list_elem_of_here.
  - change (omap ?f (inr x :: l)) with (omap f l). rewrite IH. split.
    + intros Hall r [->|Hin]%elem_of_cons; [by exists x|by apply Hall].
    + intros Hall r Hin. apply Hall. by apply list_elem_of_further.
Qed.

(** X5. The loader ends without a problem, so that neither the load errors
    nor the loading notes have anything to show, exactly when every file of
    the list is there, is read and has the six fields; a symbol column is not
    asked for. *)
Theorem no_problems_iff (fs : FileSystem) (files : list string) :
  (load fs files).2 = [] <->
  forall file, file ∈ files ->
    exists df, fs file = Parsed df
               /\ forall c, c ∈ needed -> c ≠ "Name"%string -> c ∈ columns df.
Proof.
  rewrite load_read_source. cbn [snd]. rewrite problems_of_nil. split.
  - intros Hall file Hin. apply read_source_inr.
    destruct (Hall (read_source fs file)) as [df' Hread]; [|by exists df'].
    apply list_elem_of_fmap. by exists file.
  - intros Hall r (file & -> & Hin)%list_elem_of_fmap.
    apply read_source_inr. by apply Hall.
Qed.

(** ** Date normalisation *)

Lemma sequence_inr {E A} (l : list (E + A)) (xs : list A) :
  sequence l = inr xs <-> l = inr <$> xs.
Proof.
  revert xs. induction l as [|[e|x] l IH]; intros xs; simpl.
  - split; [by intros [= <-]|]. by destruct xs.
  - split; [done|]. by destruct xs.
  - destruct (sequence l) as [e|ys] eqn:Hs.
    + split; [done|]. destruct xs as [|y xs]; [done|]. rewrite fmap_cons.
      intros [= -> Hl]. by apply IH in Hl.
    + split.
      * intros [= <-]. rewrite fmap_cons. f_equal. by apply IH.
      * destruct xs as [|y xs]; [done|]. rewrite fmap_cons.
        intros [= -> Hl]. apply IH in Hl. by injection Hl as ->.
Qed.



(** A timestamp is read as itself. *)
Lemma to_timestamp_again (parse : string -> option Z) (c c' : Cell) :
  to_timestamp parse c = inr c' ->
  to_timestamp parse c' = inr c' /\ (c' = NA \/ exists t, c' = Stamp t).
Proof.
  destruct c as [x|s|t|]; simpl; [|destruct (parse s); [|done]| |];
    intros [= <-]; (split; [done|]); eauto.
Qed.

Lemma assign_series_lookup (c : string) (vs : list Cell) (df : DataFrame) (i : nat) :
  length vs = length (rows df) ->
  rows (assign_series c vs df) !! i =
    (fun ir : nat * Row => (ir.1, <[c := default NA (vs !! i)]> ir.2)) <$> rows df !! i.
Proof.
  intros Hlen. unfold assign_series. cbn [rows]. rewrite lookup_zip_with.
  destruct (rows df !! i) as [[j r]|] eqn:Hi; [|done]. simpl.
  destruct (vs !! i) as [v|] eqn:Hv; [done|].
  apply lookup_ge_None in Hv. apply lookup_lt_Some in Hi. lia.
Qed.

Lemma assign_series_index (c : string) (vs : list Cell) (df : DataFrame) :
  length vs = length (rows df) -> index (assign_series c vs df) = index df.
Proof.
  intros Hlen. unfold index. apply list_eq. intros i.
  rewrite !list_lookup_fmap, assign_series_lookup by done.
  by destruct (rows df !! i).
Qed.

(** Writing to a column the cells it holds changes nothing, once every row
    has a cell there. *)
Lemma assign_series_same (c : string) (df : DataFrame) :
  c ∈ columns df ->
  (forall ir, ir ∈ rows df -> is_Some (ir.2 !! c)) ->
  assign_series c (cells_of c df) df = df.
Proof.
  intros Hc Hall. destruct df as [cols rs]. unfold assign_series, cells_of. simpl in *.
  rewrite bool_decide_eq_true_2 by done. f_equal.
  rewrite zip_with_fmap_r, zip_with_diag. rewrite <- (list_fmap_id rs) at 2.
  apply list_fmap_ext. intros i [j r] Hi. simpl. f_equal.
  destruct (Hall (j, r)) as [v Hv]; [by eapply list_elem_of_lookup_2|].
  simpl in Hv. unfold cell. rewrite Hv. simpl. by apply insert_id.
Qed.

Lemma to_datetime_inr (parse : string -> option Z) (df df' : DataFrame) :
  to_datetime parse df = inr df' ->
  exists ts,
    "date"%string ∈ columns df
    /\ to_timestamp parse <$> cells_of "date" df = inr <$> ts
    /\ df' = assign_series "date" ts df
    /\ length ts = length (rows df).
Proof.
  unfold to_datetime. destruct (column "date" df) as [e|cs] eqn:Hc; [done|].
  apply column_inr in Hc as [Hdate ->].
  destruct (sequence _) as [e|ts] eqn:Hs; [done|]. intros [= <-].
  apply sequence_inr in Hs. exists ts. split; [done|]. split; [done|]. split; [done|].
  apply (f_equal length) in Hs. rewrite !length_fmap in Hs.
  unfold cells_of in Hs. by rewrite length_fmap in Hs.
Qed.

(** Row by row: the date cell is read, the rest of the row stays. *)
Lemma to_datetime_row (parse : string -> option Z) (df df' : DataFrame) (i : nat)
    (ir : nat * Row) :
  to_datetime parse df = inr df' -> rows df !! i = Some ir ->
  exists v,
    to_timestamp parse (cell ir.2 "date") = inr v
    /\ rows df' !! i = Some (ir.1, <["date"%string := v]> ir.2).
Proof.
  intros Hd Hi. destruct (to_datetime_inr _ _ _ Hd) as (ts & Hdate & Hts & -> & Hlen).
  assert ((to_timestamp parse <$> cells_of "date" df) !! i
          = Some (to_timestamp parse (cell ir.2 "date"))) as Hc.
  { unfold cells_of. by rewrite !list_lookup_fmap, Hi. }
  rewrite Hts, list_lookup_fmap in Hc.
  destruct (ts !! i) as [v|] eqn:Hv; [|done]. injection Hc as Hc.
  exists v. split; [done|]. by rewrite assign_series_lookup, Hi, Hv.
Qed.

Lemma to_datetime_index (parse : string -> option Z) (df df' : DataFrame) :
  to_datetime parse df = inr df' -> index df' = index df.
Proof.
  intros Hd. destruct (to_datetime_inr _ _ _ Hd) as (ts & _ & _ & -> & Hlen).
  by apply assign_series_index.
Qed.

(** Every row of the normalised dataset comes from the row at its position. *)
Lemma to_datetime_elem (parse : string -> option Z) (df df' : DataFrame)
    (ir' : nat * Row) :
  to_datetime parse df = inr df' -> ir' ∈ rows df' ->
  exists i ir v,
    rows df !! i = Some ir
    /\ rows df' !! i = Some ir'
    /\ ir' = (ir.1, <["date"%string := v]> ir.2)
    /\ to_timestamp parse (cell ir.2 "date") = inr v.
Proof.
  intros Hd (i & Hi)%list_elem_of_lookup_1.
  assert (is_Some (rows df !! i)) as [ir Hir].
  { apply lookup_lt_is_Some. apply lookup_lt_Some in Hi.
    pose proof (to_datetime_index _ _ _ Hd) as Hindex.
    apply (f_equal length) in Hindex. unfold index in Hindex.
    rewrite !length_fmap in Hindex. lia. }
  destruct (to_datetime_row _ _ _ i ir Hd Hir) as (v & Hv & Hlook).
  exists i, ir, v. split; [done|]. split; [done|]. split; [congruence|done].
Qed.

(** X6. When line 60 succeeds the dataset keeps its columns, its rows in
    their order and their index labels; in every row the date cell is what
    the library reads the old one as, a timestamp or NaT, and every other
    cell is as it was; and normalising the result again changes nothing. *)
Theorem to_datetime_cells (parse : string -> option Z) (df df' : DataFrame) :
  to_datetime parse df = inr df' ->
  columns df' = columns df
  /\ index df' = index df
  /\ (forall i ir, rows df !! i = Some ir ->
        exists r',
          rows df' !! i = Some (ir.1, r')
          /\ to_timestamp parse (cell ir.2 "date") = inr (cell r' "date")
          /\ forall c, c ≠ "date"%string -> cell r' c = cell ir.2 c)
  /\ (forall ir, ir ∈ rows df' ->
        cell ir.2 "date" = NA \/ exists t, cell ir.2 "date" = Stamp t)
  /\ to_datetime parse df' = inr df'.
Proof.
  intros Hd. pose proof (to_datetime_columns _ _ _ Hd) as Hcols.
  pose proof (fun ir' => to_datetime_elem parse df df' ir' Hd) as Hmem.
  split; [done|]. split; [by eapply to_datetime_index|]. split; [|split].
  - intros i ir Hi. destruct (to_datetime_row _ _ _ i ir Hd Hi) as (v & Hstamp & Hlook).
    eexists. split; [done|]. unfold cell.
    split; [by rewrite lookup_insert_eq|].
    intros c Hc. by rewrite lookup_insert_ne.
  - intros ir' (i & ir & v & _ & _ & -> & Hstamp)%Hmem. unfold cell. cbn [snd].
    rewrite lookup_insert_eq. by apply to_timestamp_again in Hstamp as [_ ?].
  - destruct (to_datetime_inr _ _ _ Hd) as (ts & Hdate & _ & Hdf' & _).
    unfold to_datetime, column. rewrite bool_decide_eq_true_2 by by rewrite Hcols.
    fold (cells_of "date" df').
    assert (to_timestamp parse <$> cells_of "date" df' = inr <$> cells_of "date" df')
      as Hagain.
    { unfold cells_of. rewrite <- !list_fmap_compose. apply list_fmap_ext.
      intros i ir' Hi. apply list_elem_of_lookup_2, Hmem in Hi as (k & ir & v & _ & _ & -> & Hstamp).
      simpl. unfold cell. cbn [snd]. rewrite lookup_insert_eq. simpl.
      by apply to_timestamp_again in Hstamp as [? _]. }
    apply sequence_inr in Hagain. rewrite Hagain. f_equal.
    apply assign_series_same; [by rewrite Hcols|].
    intros ir' (k & ir & v & _ & _ & -> & _)%Hmem. cbn [snd]. rewrite lookup_insert_eq.
    by eexists.
Qed.

(** Witness of X6: the dataset of the example files. *)
Lemma to_datetime_cells_witness :
  exists df',
    to_datetime iso_date (load example_fs company_list).1 = inr df'
    /\ index df' = index (load example_fs company_list).1
    /\ to_datetime iso_date df' = inr df'.
Proof.
  destruct (to_datetime iso_date (load example_fs company_list).1) as [e|df'] eqn:E;
    [by vm_compute in E|].
  exists df'. split; [done|].
  destruct (to_datetime_cells iso_date _ df' E) as (_ & Hindex & _ & _ & Hagain).
  by split.
Defined.


(** ** The companies of the selector *)

Lemma compare_lt_trans (a b c : string) :
  String.compare a b = Lt -> String.compare b c = Lt -> String.compare a c = Lt.
Proof.
  revert b c. induction a as [|x a IH]; intros [|y b] [|z c]; simpl; try done.
  destruct (Ascii.compare x y) eqn:Hxy; [|clear IH|done];
    (destruct (Ascii.compare y z) eqn:Hyz; [| |done]).
  - apply Ascii.compare_eq_iff in Hxy as ->. rewrite Hyz. apply IH.
  - apply Ascii.compare_eq_iff in Hxy as ->. by rewrite Hyz.
  - apply Ascii.compare_eq_iff in Hyz as <-. by rewrite Hxy.
  - intros _ _. unfold Ascii.compare in *. rewrite N.compare_lt_iff in Hxy, Hyz.
    assert ((N_of_ascii x ?= N_of_ascii z)%N = Lt) as ->; [|done].
    apply N.compare_lt_iff. lia.
Qed.

Lemma str_le_trans (a b c : string) :
  Py.str_le a b = true -> Py.str_le b c = true -> Py.str_le a c = true.
Proof.
  unfold Py.str_le, String.leb.
  destruct (String.compare a b) eqn:Hab; [|intros _|done].
  - apply String.compare_eq_iff in Hab as ->. done.
  - destruct (String.compare b c) eqn:Hbc; [|intros _|done].
    + apply String.compare_eq_iff in Hbc as ->. by rewrite Hab.
    + by rewrite (compare_lt_trans a b c).
Qed.

Lemma str_le_refl (a : string) : Py.str_le a a = true.
Proof. unfold Py.str_le. by destruct (String.leb_total a a). Qed.

(** The first string of a sorted list is its least one. *)
Lemma sorted_first (l : list string) (s0 s : string) :
  Py.sorted l !! 0%nat = Some s0 -> s ∈ l -> Py.str_le s0 s = true.
Proof.
  intros H0 Hs. pose proof (sorted_Sorted l) as Hsorted.
  apply Sorted_StronglySorted in Hsorted; [|intros a b c; apply str_le_trans].
  rewrite <- sorted_perm in Hs.
  destruct (Py.sorted l) as [|x l']; [done|]. injection H0 as ->.
  apply StronglySorted_inv in Hsorted as [_ Hall].
  apply elem_of_cons in Hs as [->|Hs]; [apply str_le_refl|].
  rewrite Forall_forall in Hall. by apply Hall.
Qed.

Section unique_facts.
Context {A : Type} `{EqDecision A}.

Lemma unique_from (seen l : list A) :
  let out := foldl (fun seen x => if bool_decide (x ∈ seen) then seen else seen ++ [x])
               seen l in
  (forall x, x ∈ out <-> x ∈ seen \/ x ∈ l) /\ (NoDup seen -> NoDup out).
Proof.
  revert seen. induction l as [|y l IH]; intros seen; cbn [foldl].
  - split; [|done]. intros x. rewrite elem_of_nil. tauto.
  - case_bool_decide as Hy.
    + destruct (IH seen) as [Hin Hnd]. split; [|done].
      intros x. rewrite Hin, elem_of_cons. split; [tauto|].
      intros [?|[->|?]]; auto.
    + destruct (IH (seen ++ [y])) as [Hin Hnd]. split.
      * intros x. rewrite Hin, elem_of_app, list_elem_of_singleton, elem_of_cons. tauto.
      * intros Hseen. apply Hnd. apply NoDup_app. split; [done|]. split.
        -- intros x Hx ->%list_elem_of_singleton. done.
        -- apply NoDup_singleton.
Qed.

Lemma elem_of_unique (l : list A) (x : A) : x ∈ unique l <-> x ∈ l.
Proof.
  destruct (unique_from [] l) as [Hin _]. unfold unique. rewrite Hin, elem_of_nil. tauto.
Qed.

Lemma NoDup_unique (l : list A) : NoDup (unique l).
Proof. destruct (unique_from [] l) as [_ Hnd]. apply Hnd, NoDup_nil_2. Qed.
End unique_facts.

Lemma mapM_text_of (cs : list Cell) (ss : list string) :
  mapM text_of cs = Some ss <-> cs = Text <$> ss.
Proof.
  rewrite mapM_Some. split.
  - induction 1 as [|c s cs ss Hc _ IH]; [done|].
    rewrite fmap_cons, <- IH. by destruct c; simplify_eq/=.
  - intros ->. induction ss as [|s ss IH]; [constructor|].
    rewrite fmap_cons. by constructor.
Qed.

(** X8. The list of the company selector (line 64), for a symbol column
    that holds text only: it is in ascending order and has no symbol twice;
    a symbol is in it exactly when some row of the dataset has it, so every
    row belongs to a listed company; it is not empty when the dataset has a
    row; and the initial selection, the entry at index 0, is the least
    symbol. *)
Theorem companies_listed (all_data : DataFrame) (cs : list string) :
  companies all_data = Some cs ->
  Sorted (fun a b => Py.str_le a b = true) cs
  /\ NoDup cs
  /\ (forall s, s ∈ cs <-> exists ir, ir ∈ rows all_data /\ cell ir.2 "Name" = Text s)
  /\ (forall ir, ir ∈ rows all_data -> exists s, cell ir.2 "Name" = Text s /\ s ∈ cs)
  /\ (rows all_data ≠ [] -> cs ≠ [])
  /\ (forall s0 s, cs !! 0%nat = Some s0 -> s ∈ cs -> Py.str_le s0 s = true).
Proof.
  unfold companies. intros Hcs.
  destruct (mapM text_of (unique (cells_of "Name" all_data))) as [ss|] eqn:Hss; [|done].
  injection Hcs as <-. apply mapM_text_of in Hss.
  assert (forall s, s ∈ Py.sorted ss <->
            exists ir, ir ∈ rows all_data /\ cell ir.2 "Name" = Text s) as Hin.
  { intros s. rewrite sorted_perm.
    assert (s ∈ ss <-> Text s ∈ unique (cells_of "Name" all_data)) as ->.
    { rewrite Hss, list_elem_of_fmap. split; [by exists s|].
      by intros (s' & [= ->] & ?). }
    rewrite elem_of_unique. unfold cells_of. rewrite list_elem_of_fmap.
    split; intros (ir & ? & ?); by exists ir. }
  assert (forall ir, ir ∈ rows all_data ->
            exists s, cell ir.2 "Name" = Text s /\ s ∈ Py.sorted ss) as Hrow.
  { intros ir Hir.
    assert (cell ir.2 "Name" ∈ unique (cells_of "Name" all_data)) as Hc.
    { apply elem_of_unique. unfold cells_of. apply list_elem_of_fmap. by exists ir. }
    rewrite Hss in Hc. apply list_elem_of_fmap in Hc as (s & Hs & _).
    exists s. split; [done|]. apply Hin. by exists ir. }
  split; [apply sorted_Sorted|]. split; [|split; [done|split; [done|split]]].
  - rewrite sorted_perm. apply (NoDup_fmap_1 Text). rewrite <- Hss. apply NoDup_unique.
  - intros Hne Hnil. destruct (rows all_data) as [|ir rs] eqn:Hrows; [done|].
    destruct (Hrow ir) as (s & _ & Hs); [apply list_elem_of_here|].
    rewrite Hnil in Hs. by apply not_elem_of_nil in Hs.
  - intros s0 s H0 Hs. apply (sorted_first ss); [done|]. by rewrite <- sorted_perm.
Qed.

(** Witness of X8: the example dataset, with the symbols AAPL and MSFT. *)
Lemma companies_listed_witness :
  companies example_data = Some ["AAPL"; "MSFT"]%string
  /\ NoDup ["AAPL"; "MSFT"]%string
  /\ exists ir, ir ∈ rows example_data /\ cell ir.2 "Name" = Text "MSFT".
Proof.
  assert (companies example_data = Some ["AAPL"; "MSFT"]%string) as Hcs by reflexivity.
  split; [done|].
  destruct (companies_listed example_data _ Hcs) as (_ & Hnd & Hin & _).
  split; [done|]. apply Hin. by_evaluation.
Defined.

(** ** The date slider *)

Lemma filter_iff_in {A} (P Q : A -> Prop) `{!forall x, Decision (P x)}
    `{!forall x, Decision (Q x)} (l : list A) :
  (forall x, x ∈ l -> P x <-> Q x) -> filter P l = filter Q l.
Proof.
  induction l as [|x l IH]; intros Hiff; [done|].
  rewrite !filter_cons.
  rewrite IH by (intros y Hy; apply Hiff; by apply list_elem_of_further).
  pose proof (Hiff x (list_elem_of_here _ _)) as Hx.
  destruct (decide (P x)) as [HP|HP], (decide (Q x)) as [HQ|HQ]; tauto.
Qed.

Lemma foldr_min_le (t : Z) (ts : list Z) (x : Z) :
  x ∈ t :: ts -> foldr Z.min t ts <= x.
Proof.
  induction ts as [|y ts IH]; simpl.
  - intros ->%list_elem_of_singleton. lia.
  - intros [->|[->|Hx]%elem_of_cons]%elem_of_cons.
    + etrans; [apply Z.le_min_r|]. apply IH, list_elem_of_here.
    + apply Z.le_min_l.
    + etrans; [apply Z.le_min_r|]. apply IH. by apply list_elem_of_further.
Qed.

Lemma foldr_max_ge (t : Z) (ts : list Z) (x : Z) :
  x ∈ t :: ts -> x <= foldr Z.max t ts.
Proof.
  induction ts as [|y ts IH]; simpl.
  - intros ->%list_elem_of_singleton. lia.
  - intros [->|[->|Hx]%elem_of_cons]%elem_of_cons.
    + etrans; [|apply Z.le_max_r]. apply IH, list_elem_of_here.
    + apply Z.le_max_l.
    + etrans; [|apply Z.le_max_r]. apply IH. by apply list_elem_of_further.
Qed.

Lemma foldr_min_in (t : Z) (ts : list Z) : foldr Z.min t ts ∈ t :: ts.
Proof.
  induction ts as [|y ts IH]; simpl; [apply list_elem_of_here|].
  destruct (Z.min_spec y (foldr Z.min t ts)) as [[_ ->]|[_ ->]].
  - apply list_elem_of_further, list_elem_of_here.
  - apply elem_of_cons in IH as [->|IH]; [apply list_elem_of_here|].
    by do 2 apply list_elem_of_further.
Qed.

Lemma foldr_max_in (t : Z) (ts : list Z) : foldr Z.max t ts ∈ t :: ts.
Proof.
  induction ts as [|y ts IH]; simpl; [apply list_elem_of_here|].
  destruct (Z.max_spec y (foldr Z.max t ts)) as [[_ ->]|[_ ->]].
  - apply elem_of_cons in IH as [->|IH]; [apply list_elem_of_here|].
    by do 2 apply list_elem_of_further.
  - apply list_elem_of_further, list_elem_of_here.
Qed.

Lemma elem_of_dates (df : DataFrame) (t : Z) :
  t ∈ dates df <-> exists ir, ir ∈ rows df /\ cell ir.2 "date" = Stamp t.
Proof.
  unfold dates, cells_of. rewrite list_elem_of_omap. split.
  - intros (c & (ir & -> & Hir)%list_elem_of_fmap & Hc). exists ir. split; [done|].
    destruct (cell ir.2 "date"); by simplify_eq/=.
  - intros (ir & Hir & Hc). exists (Stamp t). split; [|done].
    apply list_elem_of_fmap. by exists ir.
Qed.

(** The earliest and the latest date are dates of the dataset and bound the
    others. *)
Lemma min_d_spec (df : DataFrame) (a : Z) :
  min_d df = Some a -> a ∈ dates df /\ forall t, t ∈ dates df -> a <= t.
Proof.
  unfold min_d. destruct (dates df) as [|t ts]; [done|]. intros [= <-].
  split; [apply foldr_min_in|apply foldr_min_le].
Qed.

Lemma max_d_spec (df : DataFrame) (b : Z) :
  max_d df = Some b -> b ∈ dates df /\ forall t, t ∈ dates df -> t <= b.
Proof.
  unfold max_d. destruct (dates df) as [|t ts]; [done|]. intros [= <-].
  split; [apply foldr_max_in|apply foldr_max_ge].
Qed.

Lemma to_pydatetime_spec (t : Z) :
  to_pydatetime t <= t < to_pydatetime t + 1000
  /\ (t mod 1000 = 0 <-> to_pydatetime t = t).
Proof.
  unfold to_pydatetime. pose proof (Z.div_mod t 1000). pose proof (Z.mod_pos_bound t 1000).
  lia.
Qed.

(** X9. The date slider left at its initial value (line 76), the earliest
    and the latest date of the dataset as datetimes. The lower bound leaves
    no dated row out, and the upper bound is less than a microsecond below
    the latest date; so the view holds the rows of the company whose date is
    at most the latest date cut to whole microseconds. When every date is a
    whole number of microseconds the view holds every dated row of the
    company; a row on the latest date is left out when that date is not. *)
Theorem default_range_view (argsort : list (option Z) -> list nat)
    (all_data : DataFrame) (company : string) (s e : Z) :
  argsort_ok argsort ->
  default_range all_data = Some (s, e) ->
  s <= e
  /\ (forall ir t, ir ∈ rows all_data -> cell ir.2 "date" = Stamp t ->
        s <= t < e + 1000)
  /\ (forall ir,
        ir ∈ rows (filtered argsort company s e all_data) <->
        ir ∈ rows all_data /\ cell ir.2 "Name" = Text company
        /\ exists t, cell ir.2 "date" = Stamp t /\ t <= e)
  /\ ((forall ir t, ir ∈ rows all_data -> cell ir.2 "date" = Stamp t -> t mod 1000 = 0) ->
      rows (filtered argsort company s e all_data)
        ≡ₚ filter (fun ir => cell ir.2 "Name" = Text company
                             /\ is_Some (sort_key (cell ir.2 "date")))
             (rows all_data))
  /\ (forall ir b, max_d all_data = Some b -> b mod 1000 ≠ 0 ->
        cell ir.2 "date" = Stamp b ->
        ir ∉ rows (filtered argsort company s e all_data)).
Proof.
  intros Hok. unfold default_range.
  destruct (min_d all_data) as [a|] eqn:Hmin; [|done].
  destruct (max_d all_data) as [b|] eqn:Hmax; [|done]. intros [= <- <-].
  apply min_d_spec in Hmin as [Ha Hlow]. apply max_d_spec in Hmax as [Hb Hhigh].
  pose proof (to_pydatetime_spec a) as [Ha' _].
  pose proof (to_pydatetime_spec b) as [Hb' Hwhole].
  assert (forall ir t, ir ∈ rows all_data -> cell ir.2 "date" = Stamp t ->
            to_pydatetime a <= t < to_pydatetime b + 1000) as Hbounds.
  { intros ir t Hir Ht.
    assert (t ∈ dates all_data) as Hin by (apply elem_of_dates; by exists ir).
    specialize (Hlow t Hin). specialize (Hhigh t Hin). lia. }
  assert (forall ir,
            ir ∈ rows (filtered argsort company (to_pydatetime a) (to_pydatetime b) all_data) <->
            ir ∈ rows all_data /\ cell ir.2 "Name" = Text company
            /\ exists t, cell ir.2 "date" = Stamp t /\ t <= to_pydatetime b) as Hview.
  { intros ir. rewrite filtered_elem by done. unfold matches. split.
    - intros (Hir & HN & t & Ht & Hr). split; [done|]. split; [done|].
      exists t. split; [done|lia].
    - intros (Hir & HN & t & Ht & Hr). split; [done|]. split; [done|].
      exists t. split; [done|]. destruct (Hbounds ir t Hir Ht). lia. }
  split; [|split; [done|split; [done|split]]].
  - unfold to_pydatetime. specialize (Hlow b Hb).
    pose proof (Z.div_le_mono a b 1000). lia.
  - intros Hall. rewrite filtered_perm by done.
    rewrite (filter_iff_in (matches company (to_pydatetime a) (to_pydatetime b))
               (fun ir => cell ir.2 "Name" = Text company
                          /\ is_Some (sort_key (cell ir.2 "date")))); [done|].
    intros ir Hir. unfold matches. split.
    + intros (HN & t & -> & _). split; [done|]. by eexists.
    + intros (HN & Hkey). split; [done|].
      destruct (cell ir.2 "date") as [x|x|t|] eqn:Ht; try by destruct Hkey.
      exists t. split; [done|]. destruct (Hbounds ir t Hir Ht) as [Hl _].
      split; [done|].
      apply elem_of_dates in Hb as (irb & Hirb & Hdb).
      apply Hall in Hdb; [|done]. apply Hwhole in Hdb. rewrite Hdb.
      apply Hhigh, elem_of_dates. by exists ir.
  - intros ir b' [= <-] Hfrac Hdate (_ & _ & t & Ht & Hle)%Hview.
    rewrite Hdate in Ht. injection Ht as <-.
    assert (to_pydatetime b ≠ b) by (by intros ?%Hwhole). lia.
Qed.

(** Witness of X9: the example dataset, whose dates run from 1 to 9
    nanoseconds; the slider then runs from 0 to 0. *)
Lemma default_range_view_witness :
  argsort_ok stable_argsort
  /\ default_range example_data = Some (0, 0)
  /\ forall ir, cell ir.2 "date" = Stamp 9 ->
       ir ∉ rows (filtered stable_argsort "AAPL" 0 0 example_data).
Proof.
  split; [apply insertion_argsort_ok|].
  assert (default_range example_data = Some (0, 0)) as Hdefault by reflexivity.
  split; [done|].
  destruct (default_range_view stable_argsort example_data "AAPL" 0 0
              (insertion_argsort_ok false) Hdefault) as (_ & _ & _ & _ & Hout).
  intros ir. by apply Hout.
Defined.

(** ** The moving-average columns *)

Lemma ma_label_eq (n : nat) :
  ma_label n = String "M" (String "A" (String "_" (pretty n))).
Proof. reflexivity. Qed.

Lemma ma_label_inj (n m : nat) : ma_label n = ma_label m -> n = m.
Proof. rewrite !ma_label_eq. intros [= H]. by apply (inj pretty). Qed.

Lemma ma_label_metric (n : nat) (c : string) : c ∈ needed -> ma_label n ≠ c.
Proof.
  intros Hc. unfold needed in Hc. rewrite ma_label_eq. each_member Hc; done.
Qed.

Lemma cells_of_assign_series (c x : string) (vs : list Cell) (df : DataFrame) :
  length vs = length (rows df) ->
  cells_of x (assign_series c vs df) =
    if decide (x = c) then vs else cells_of x df.
Proof.
  intros Hlen. apply list_eq. intros i. unfold cells_of at 1.
  rewrite list_lookup_fmap, assign_series_lookup by done.
  destruct (decide (x = c)) as [->|Hx].
  - destruct (rows df !! i) as [ir|] eqn:Hi; simpl.
    + unfold cell. rewrite lookup_insert_eq.
      destruct (vs !! i) eqn:Hv; [done|].
      apply lookup_ge_None in Hv. apply lookup_lt_Some in Hi. lia.
    + symmetry. apply lookup_ge_None. apply lookup_ge_None in Hi. lia.
  - unfold cells_of. rewrite list_lookup_fmap.
    destruct (rows df !! i) as [ir|]; simpl; [|done].
    unfold cell. by rewrite lookup_insert_ne.
Qed.

Lemma rolling_column_inr (w : nat) (c : string) (dfc : DataFrame) (vs : list (option Qc)) :
  c ∈ columns dfc -> floats (cells_of c dfc) = Some vs ->
  rolling_column w c dfc = inr (of_float <$> rolling_mean w vs).
Proof.
  intros Hc Hvs. unfold rolling_column, column. rewrite bool_decide_eq_true_2 by done.
  fold (cells_of c dfc). by rewrite Hvs.
Qed.

Lemma floats_length (cs : list Cell) (vs : list (option Qc)) :
  floats cs = Some vs -> length vs = length cs.
Proof. intros H. symmetry. by eapply length_mapM. Qed.

(** What lines 89-90 make of a subset whose metric column is numeric. *)
Lemma moving_averages_inr (selected_metric : string) (ma_1 ma_2 : nat)
    (dfc : DataFrame) (vs : list (option Qc)) :
  selected_metric ∈ needed ->
  selected_metric ≠ "volume"%string ->
  selected_metric ∈ columns dfc ->
  floats (cells_of selected_metric dfc) = Some vs ->
  moving_averages selected_metric ma_1 ma_2 dfc =
    inr (assign_series (ma_label ma_2) (of_float <$> rolling_mean ma_2 vs)
           (assign_series (ma_label ma_1) (of_float <$> rolling_mean ma_1 vs) dfc)).
Proof.
  intros Hmetric Hvol Hc Hvs. unfold moving_averages.
  rewrite bool_decide_eq_true_2 by done.
  rewrite (rolling_column_inr _ _ _ vs) by done.
  rewrite (rolling_column_inr _ _ _ vs); [done|by apply assign_series_grows|].
  rewrite cells_of_assign_series.
  - rewrite decide_False; [done|]. intros Heq. by apply (ma_label_metric ma_1 selected_metric).
  - rewrite length_fmap, rolling_mean_length. apply floats_length in Hvs.
    unfold cells_of in Hvs. by rewrite length_fmap in Hvs.
Qed.

(** X10. For a price metric whose column is numeric, lines 89-90 raise
    nothing and give the subset with the two moving-average columns: the
    rows keep their order and their index labels, the columns are the old
    ones and the two labels, the cell of a moving average in the row at
    position [i] is the mean of the metric over the window that ends at
    [i], missing when that window is not full or has a gap, and every other
    cell is as it was. *)
Theorem moving_averages_cells (selected_metric : string) (ma_1 ma_2 : nat)
    (dfc : DataFrame) (vs : list (option Qc)) :
  selected_metric ∈ metrics ->
  selected_metric ≠ "volume"%string ->
  selected_metric ∈ columns dfc ->
  floats (cells_of selected_metric dfc) = Some vs ->
  (1 <= ma_1)%nat -> (1 <= ma_2)%nat ->
  exists dfc',
    moving_averages selected_metric ma_1 ma_2 dfc = inr dfc'
    /\ index dfc' = index dfc
    /\ (forall c, c ∈ columns dfc' <->
          c ∈ columns dfc \/ c = ma_label ma_1 \/ c = ma_label ma_2)
    /\ (forall i ir, rows dfc !! i = Some ir ->
          exists r',
            rows dfc' !! i = Some (ir.1, r')
            /\ cell r' (ma_label ma_1) = of_float (window_mean ma_1 vs i)
            /\ cell r' (ma_label ma_2) = of_float (window_mean ma_2 vs i)
            /\ forall c, c ≠ ma_label ma_1 -> c ≠ ma_label ma_2 -> cell r' c = cell ir.2 c).
Proof.
  intros Hmetric Hvol Hc Hvs Hw1 Hw2.
  rewrite (moving_averages_inr _ _ _ _ vs) by (by try apply metrics_needed).
  eexists. split; [done|].
  assert (length vs = length (rows dfc)) as Hlen.
  { apply floats_length in Hvs. unfold cells_of in Hvs. by rewrite length_fmap in Hvs. }
  assert (forall w, length (of_float <$> rolling_mean w vs) = length (rows dfc)) as Hlenw.
  { intros w. by rewrite length_fmap, rolling_mean_length. }
  assert (length (rows (assign_series (ma_label ma_1) (of_float <$> rolling_mean ma_1 vs) dfc))
          = length (rows dfc)) as Hlen1.
  { pose proof (assign_series_index (ma_label ma_1) _ dfc (Hlenw ma_1)) as H.
    apply (f_equal length) in H. unfold index in H. by rewrite !length_fmap in H. }
  split; [|split].
  - rewrite assign_series_index by by rewrite Hlenw, Hlen1.
    by apply assign_series_index.
  - intros c. unfold assign_series; cbn [columns].
    repeat case_bool_decide; rewrite ?elem_of_app, ?list_elem_of_singleton in *;
      try tauto; split; intros; destruct_or?; subst; tauto.
  - intros i ir Hi.
    assert (forall w, (1 <= w)%nat ->
              default NA ((of_float <$> rolling_mean w vs) !! i)
                = of_float (window_mean w vs i)) as Hval.
    { intros w Hw. rewrite list_lookup_fmap, rolling_mean_lookup; [done..|].
      rewrite Hlen. by eapply lookup_lt_Some. }
    rewrite assign_series_lookup by by rewrite Hlenw, Hlen1.
    rewrite assign_series_lookup, Hi by done. simpl.
    eexists. split; [done|]. rewrite !Hval by done. unfold cell.
    split; [|split].
    + destruct (decide (ma_1 = ma_2)) as [->|Hne].
      * by rewrite lookup_insert_eq.
      * rewrite lookup_insert_ne by (by intros ?%ma_label_inj).
        by rewrite lookup_insert_eq.
    + by rewrite lookup_insert_eq.
    + intros c H1 H2. by rewrite !lookup_insert_ne.
Qed.

(** Witness of X10: the closing prices of the example dataset. *)
Lemma moving_averages_cells_witness :
  floats (cells_of "close" example_data)
    = Some (Some <$> (Qc_of_Z <$> [10; 20; 11; 12; 13]))
  /\ exists dfc',
       moving_averages "close" 2 5 example_data = inr dfc'
       /\ index dfc' = index example_data.
Proof.
  assert (floats (cells_of "close" example_data)
          = Some (Some <$> (Qc_of_Z <$> [10; 20; 11; 12; 13]))) as Hvs by by_evaluation.
  split; [done|].
  destruct (moving_averages_cells "close" 2 5 example_data
              (Some <$> (Qc_of_Z <$> [10; 20; 11; 12; 13]))) as (dfc' & Hma & Hindex & _).
  - by_evaluation.
  - done.
  - by_evaluation.
  - done.
  - lia.
  - lia.
  - by exists dfc'.
Defined.

(** ** The overlays *)

Lemma existsb_notna (vs : list (option Qc)) :
  existsb notna (of_float <$> vs) = true <-> exists i, is_Some (mjoin (vs !! i)).
Proof.
  rewrite existsb_exists. split.
  - intros (c & Hc & Hna). apply list_elem_of_In, list_elem_of_fmap in Hc as (v & -> & Hv).
    apply list_elem_of_lookup_1 in Hv as [i Hi]. exists i. rewrite Hi. simpl.
    destruct v; [by eexists|done].
  - intros (i & Hi). destruct (vs !! i) as [[x|]|] eqn:Hv; try by destruct Hi.
    exists (Num x). split; [|done].
    apply list_elem_of_In, list_elem_of_fmap. exists (Some x). split; [done|].
    by eapply list_elem_of_lookup_2.
Qed.

(** On a column without gaps a moving average has a value somewhere exactly
    when the column has a full window. *)
Lemma rolling_mean_any (w : nat) (xs : list Qc) :
  (1 <= w)%nat ->
  existsb notna (of_float <$> rolling_mean w (Some <$> xs)) = true <->
  (w <= length xs)%nat.
Proof.
  intros Hw. rewrite existsb_notna, rolling_mean_full by done. split.
  - intros (i & Hi). rewrite list_lookup_fmap in Hi.
    destruct (decide (i < length xs)%nat) as [Hlt|Hge].
    + rewrite lookup_seq_lt in Hi by done. simpl in Hi.
      destruct (Nat.leb_spec w (S i)); [lia|by destruct Hi].
    + rewrite lookup_seq_ge in Hi by lia. by destruct Hi.
  - intros Hlen. exists (w - 1)%nat.
    rewrite list_lookup_fmap, lookup_seq_lt by lia. simpl.
    destruct (Nat.leb_spec w (S (w - 1))); [by eexists|lia].
Qed.

Lemma floats_Num (xs : list Qc) : floats (Num <$> xs) = Some (Some <$> xs).
Proof.
  unfold floats. apply mapM_Some. induction xs as [|x xs IH]; [constructor|].
  rewrite !fmap_cons. by constructor.
Qed.

(** X11. For a price metric whose column holds a number in every row, the
    overlay of a moving average is drawn (lines 106 and 108) exactly when
    the subset has at least as many rows as the window: a subset shorter
    than the window gets the column, all missing, and no line. *)
Theorem overlay_drawn_iff (selected_metric : string) (ma_1 ma_2 : nat)
    (dfc : DataFrame) (xs : list Qc) :
  selected_metric ∈ metrics ->
  selected_metric ≠ "volume"%string ->
  selected_metric ∈ columns dfc ->
  cells_of selected_metric dfc = Num <$> xs ->
  (1 <= ma_1)%nat -> (1 <= ma_2)%nat ->
  exists dfc',
    moving_averages selected_metric ma_1 ma_2 dfc = inr dfc'
    /\ (overlay_drawn (ma_label ma_1) dfc' = true <-> (ma_1 <= length (rows dfc))%nat)
    /\ (overlay_drawn (ma_label ma_2) dfc' = true <-> (ma_2 <= length (rows dfc))%nat).
Proof.
  intros Hmetric Hvol Hc Hcells Hw1 Hw2.
  assert (floats (cells_of selected_metric dfc) = Some (Some <$> xs)) as Hvs.
  { rewrite Hcells. apply floats_Num. }
  assert (length xs = length (rows dfc)) as Hlen.
  { apply (f_equal length) in Hcells. unfold cells_of in Hcells.
    by rewrite !length_fmap in Hcells. }
  rewrite (moving_averages_inr _ _ _ _ (Some <$> xs)) by (by try apply metrics_needed).
  eexists. split; [done|].
  assert (forall w, length (of_float <$> rolling_mean w (Some <$> xs)) = length (rows dfc))
    as Hlenw.
  { intros w. by rewrite length_fmap, rolling_mean_length, length_fmap. }
  assert (length (rows (assign_series (ma_label ma_1)
                          (of_float <$> rolling_mean ma_1 (Some <$> xs)) dfc))
          = length (rows dfc)) as Hlen1.
  { pose proof (assign_series_index (ma_label ma_1) _ dfc (Hlenw ma_1)) as H.
    apply (f_equal length) in H. unfold index in H. by rewrite !length_fmap in H. }
  unfold overlay_drawn.
  rewrite !cells_of_assign_series by (by rewrite ?Hlen1, Hlenw).
  rewrite (decide_True (P := ma_label ma_2 = ma_label ma_2)) by done.
  rewrite (decide_True (P := ma_label ma_1 = ma_label ma_1)) by done.
  rewrite <- Hlen. split; [|by apply rolling_mean_any].
  destruct (decide (ma_label ma_1 = ma_label ma_2)) as [->%ma_label_inj|_];
    by apply rolling_mean_any.
Qed.

(** Witness of X11: five closing prices, windows of 2 and of 6 rows. *)
Lemma overlay_drawn_iff_witness :
  cells_of "close" example_data = Num <$> (Qc_of_Z <$> [10; 20; 11; 12; 13])
  /\ exists dfc',
       moving_averages "close" 2 6 example_data = inr dfc'
       /\ overlay_drawn (ma_label 2) dfc' = true
       /\ overlay_drawn (ma_label 6) dfc' = false.
Proof.
  assert (cells_of "close" example_data = Num <$> (Qc_of_Z <$> [10; 20; 11; 12; 13]))
    as Hcells by by_evaluation.
  split; [done|].
  destruct (overlay_drawn_iff "close" 2 6 example_data (Qc_of_Z <$> [10; 20; 11; 12; 13]))
    as (dfc' & Hma & H1 & H2).
  - by_evaluation.
  - done.
  - by_evaluation.
  - done.
  - lia.
  - lia.
  - exists dfc'. split; [done|]. split.
    + apply H1. simpl. lia.
    + apply not_true_is_false. intros Hdrawn%H2. simpl in Hdrawn. lia.
Defined.

Example ma_label_20 : ma_label 20 = "MA_20"%string.
Proof. reflexivity. Qed.

(** ** The shape of the correlation matrix *)




Lemma entry_DataFrame_corr (coefficient : Method -> list (Qc * Qc) -> option Qc)
    (method : Method) (d : DataFrame) (i j : nat) :
  entry (DataFrame_corr coefficient method d) i j =
    a ← numeric_columns d !! i;
    b ← numeric_columns d !! j;
    Some (corr_entry coefficient method (cells_of a d) (cells_of b d)).
Proof.
  unfold entry, DataFrame_corr. cbn [entries]. rewrite list_lookup_fmap.
  destruct (numeric_columns d !! i) as [a|]; simpl; [|done].
  rewrite list_lookup_fmap. by destruct (numeric_columns d !! j).
Qed.







(** ** Rounding and the colour scale *)

Lemma rint_of_Z (k : Z) : rint (Qc_of_Z k) = k.
Proof.
  unfold rint.
  assert (Qfloor (Qc_of_Z k) = k) as ->.
  { unfold Qc_of_Z. cbn [this]. apply Qfloor_Z. }
  replace (Qc_of_Z k - Qc_of_Z k)%Qc with 0%Qc by ring. done.
Qed.

Lemma round_to_of_Z (k : Z) :
  round_to 2 (Qc_of_Z k / Qc_of_Z 100)%Qc = (Qc_of_Z k / Qc_of_Z 100)%Qc.
Proof.
  unfold round_to. change (10 ^ Z.of_nat 2) with 100.
  replace (Qc_of_Z k / Qc_of_Z 100 * Qc_of_Z 100)%Qc with (Qc_of_Z k).
  - by rewrite rint_of_Z.
  - field. by_evaluation.
Qed.

(** Rounding is idempotent. *)
Lemma round_to_again (x : Qc) : round_to 2 (round_to 2 x) = round_to 2 x.
Proof. unfold round_to at 2 3. change (10 ^ Z.of_nat 2) with 100. apply round_to_of_Z. Qed.

(** Rounding does not leave the interval from -1 to 1. *)
Lemma round_to_bounds (x : Qc) :
  (- (1) <= x)%Qc -> (x <= 1)%Qc -> (- (1) <= round_to 2 x)%Qc /\ (round_to 2 x <= 1)%Qc.
Proof.
  intros Hlo Hhi. destruct (rint_near (x * Qc_of_Z 100)%Qc) as [H1 H2].
  unfold round_to. change (10 ^ Z.of_nat 2) with 100.
  set (k := rint (x * Qc_of_Z 100)) in *. clearbody k.
  assert (-100 <= k <= 100) as Hk.
  { unfold Qcle, Qclt, Qcminus, Qcplus, Qcopp, Qcmult, Q2Qc, Qc_of_Z in *; simpl in *.
    rewrite ?Qred_correct in *. change (inject_Z 100) with (100%Q) in *.
    assert (inject_Z k <= 201 # 2)%Q as Hu by lra.
    assert (- (201 # 2) <= inject_Z k)%Q as Hl by lra.
    unfold Qle in Hu, Hl. simpl in Hu, Hl. lia. }
  destruct Hk as [Hl Hu]. rewrite Zle_Qle in Hl, Hu.
  unfold Qcle, Qclt, Qcminus, Qcplus, Qcopp, Qcmult, Qcdiv, Qcinv, Q2Qc, Qc_of_Z in *;
    simpl in *.
  rewrite ?Qred_correct in *.
  change (inject_Z 100) with (100%Q) in *. change (inject_Z (-100)) with (-100)%Q in *.
  change (/ 100)%Q with (1 # 100)%Q. split; lra.
Qed.

(** X13. When the coefficient of the library lies between -1 and 1, so does
    every entry of the matrix of line 135: rounding to two digits does not
    leave the scale of the heat map ([zmin=-1], [zmax=1]); and an entry is
    its own rounding, so rounding the matrix once more changes no entry. *)
Theorem corr_within_scale (coefficient : Method -> list (Qc * Qc) -> option Qc)
    (method : Method) (dfc : DataFrame) (m : Matrix) :
  corr coefficient method dfc = inr m ->
  (forall meth obs v, coefficient meth obs = Some v -> (- (1) <= v)%Qc /\ (v <= 1)%Qc) ->
  forall i j v,
    entry m i j = Some (Some v) ->
    (- (1) <= v)%Qc /\ (v <= 1)%Qc /\ round_to 2 v = v.
Proof.
  unfold corr. destruct (select show_cols dfc) as [e|d]; [done|]. intros [= <-] Hbound i j v.
  rewrite Matrix_round_entry, entry_DataFrame_corr.
  destruct (numeric_columns d !! i) as [a|]; simpl; [|done].
  destruct (numeric_columns d !! j) as [b|]; simpl; [|done].
  unfold corr_entry. cbv zeta. destruct (_ <? _)%nat; [done|].
  destruct (coefficient method _) as [u|] eqn:Hu; simpl; [|done]. intros [= <-].
  destruct (Hbound _ _ _ Hu) as [Hlo Hhi].
  destruct (round_to_bounds u Hlo Hhi) as [Hlo' Hhi'].
  split; [done|]. split; [done|]. apply round_to_again.
Qed.

Lemma sgn_diff_bound (a b : Qc) : -1 <= sgn_diff a b <= 1.
Proof. unfold sgn_diff. destruct (Qccompare a b); lia. Qed.

(** Twice the number of concordant minus discordant pairs is at most the
    number of ordered pairs. *)
Lemma concordance_bound (obs : list (Qc * Qc)) :
  - (Z.of_nat (length obs) * (Z.of_nat (length obs) - 1)) <= 2 * concordance obs
    <= Z.of_nat (length obs) * (Z.of_nat (length obs) - 1).
Proof.
  induction obs as [|p obs IH]; [simpl; lia|].
  cbn [concordance].
  assert (- Z.of_nat (length obs)
          <= foldr (fun q acc => sgn_diff p.1 q.1 * sgn_diff p.2 q.2 + acc) 0 obs
          <= Z.of_nat (length obs)) as Hrow.
  { clear IH. induction obs as [|q obs IH]; [simpl; lia|].
    cbn [foldr length].
    pose proof (sgn_diff_bound p.1 q.1). pose proof (sgn_diff_bound p.2 q.2). nia. }
  cbn [length]. nia.
Qed.

Lemma kendall_only_bound (meth : Method) (obs : list (Qc * Qc)) (v : Qc) :
  kendall_only meth obs = Some v -> (- (1) <= v)%Qc /\ (v <= 1)%Qc.
Proof.
  destruct meth; try done. unfold kendall_only, tau_untied.
  pose proof (concordance_bound obs) as Hc.
  set (n := Z.of_nat (length obs)) in *. set (c := concordance obs) in *.
  destruct (Z.ltb_spec n 2) as [|Hn]; [done|]. intros [= <-].
  assert (exists d, n * (n - 1) / 2 = d /\ n * (n - 1) = 2 * d) as (d & -> & Hd).
  { eexists. split; [done|]. destruct (Z.Even_or_Odd n) as [[k ->]|[k ->]].
    - replace (2 * k * (2 * k - 1)) with ((k * (2 * k - 1)) * 2) by lia.
      rewrite Z.div_mul by done. lia.
    - replace ((2 * k + 1) * (2 * k + 1 - 1)) with (((2 * k + 1) * k) * 2) by lia.
      rewrite Z.div_mul by done. lia. }
  assert (0 < d) as Hpos by nia. assert (- d <= c <= d) as [Hl Hu] by lia.
  rewrite Zlt_Qlt in Hpos. rewrite Zle_Qle in Hl, Hu. rewrite inject_Z_opp in Hl.
  unfold Qcle, Qcopp, Qcdiv, Qcmult, Qcinv, Q2Qc, Qc_of_Z; simpl.
  rewrite ?Qred_correct. change (inject_Z 0) with 0%Q in Hpos.
  change (inject_Z c * / inject_Z d)%Q with (inject_Z c / inject_Z d)%Q.
  split.
  - apply Qle_shift_div_l; [done|]. lra.
  - apply Qle_shift_div_r; [done|]. lra.
Qed.

(** Witness of X13: three rows under Kendall's method; the entry of the
    open and the high prices is 33/100. *)
Lemma corr_within_scale_witness :
  exists m,
    corr kendall_only kendall three_bars = inr m
    /\ entry m 0 1 = Some (Some (Q2Qc (33 # 100)))
    /\ round_to 2 (Q2Qc (33 # 100)) = Q2Qc (33 # 100).
Proof.
  destruct (corr kendall_only kendall three_bars) as [e|m] eqn:E; [by vm_compute in E|].
  exists m. split; [done|].
  assert (entry m 0 1 = Some (Some (Q2Qc (33 # 100)))) as Hentry.
  { revert E. vm_compute. intros [= <-]. reflexivity. }
  split; [done|].
  by destruct (corr_within_scale kendall_only kendall three_bars m E kendall_only_bound
                 0%nat 1%nat _ Hentry) as (_ & _ & ?).
Defined.

(** ** From the files to the rows that are drawn *)

Lemma assign_series_elem (c : string) (vs : list Cell) (df : DataFrame)
    (ir' : nat * Row) :
  ir' ∈ rows (assign_series c vs df) ->
  exists ir v, ir ∈ rows df /\ ir' = (ir.1, <[c := v]> ir.2).
Proof.
  intros (i & Hi)%list_elem_of_lookup_1. unfold assign_series in Hi. cbn [rows] in Hi.
  apply lookup_zip_with_Some in Hi as ([j r] & v & -> & Hir & _).
  exists (j, r), v. split; [by eapply list_elem_of_lookup_2|done].
Qed.

Lemma rolling_column_inv (w : nat) (c : string) (dfc : DataFrame) (s : list Cell) :
  rolling_column w c dfc = inr s ->
  exists vs, floats (cells_of c dfc) = Some vs
             /\ s = of_float <$> rolling_mean w vs
             /\ length s = length (rows dfc).
Proof.
  unfold rolling_column. destruct (column c dfc) as [e|cs] eqn:Hc; [done|].
  apply column_inr in Hc as [_ ->].
  destruct (floats _) as [vs|] eqn:Hvs; [|done]. intros [= <-].
  exists vs. split; [done|]. split; [done|].
  rewrite length_fmap, rolling_mean_length. apply floats_length in Hvs.
  unfold cells_of in Hvs. by rewrite length_fmap in Hvs.
Qed.

Lemma index_length (df : DataFrame) : length (index df) = length (rows df).
Proof. unfold index. by rewrite length_fmap. Qed.

Lemma moving_averages_index (selected_metric : string) (ma_1 ma_2 : nat)
    (dfc dfc' : DataFrame) :
  moving_averages selected_metric ma_1 ma_2 dfc = inr dfc' -> index dfc' = index dfc.
Proof.
  unfold moving_averages. case_bool_decide; [|by intros [= <-]].
  destruct (rolling_column ma_1 _ _) as [e1|s1] eqn:H1; [done|].
  destruct (rolling_column ma_2 _ _) as [e2|s2] eqn:H2; [done|]. intros [= <-].
  apply rolling_column_inv in H1 as (_ & _ & _ & Hlen1).
  apply rolling_column_inv in H2 as (_ & _ & _ & Hlen2).
  rewrite assign_series_index by done. by apply assign_series_index.
Qed.

(** The moving averages leave the cells of the needed columns as they are. *)
Lemma moving_averages_elem (selected_metric : string) (ma_1 ma_2 : nat)
    (dfc dfc' : DataFrame) (ir' : nat * Row) :
  moving_averages selected_metric ma_1 ma_2 dfc = inr dfc' -> ir' ∈ rows dfc' ->
  exists ir, ir ∈ rows dfc /\ ir'.1 = ir.1
             /\ forall c, c ∈ needed -> cell ir'.2 c = cell ir.2 c.
Proof.
  unfold moving_averages. case_bool_decide.
  - destruct (rolling_column ma_1 _ _) as [e1|s1]; [done|].
    destruct (rolling_column ma_2 _ _) as [e2|s2]; [done|]. intros [= <-] Hin.
    apply assign_series_elem in Hin as (ir1 & v2 & Hin & ->).
    apply assign_series_elem in Hin as (ir & v1 & Hin & ->).
    exists ir. split; [done|]. split; [done|]. intros c Hc. unfold cell. cbn [snd].
    rewrite !lookup_insert_ne; [done|by apply ma_label_metric..].
  - intros [= <-] Hin. by exists ir'.
Qed.

Lemma filtered_index_NoDup (argsort : list (option Z) -> list nat)
    (selected_company : string) (start_d end_d : Z) (all_data : DataFrame) :
  argsort_ok argsort -> NoDup (index all_data) ->
  NoDup (index (filtered argsort selected_company start_d end_d all_data)).
Proof.
  intros Hok Hnd. unfold index. rewrite filtered_perm by done.
  eapply sublist_NoDup; [exact Hnd|]. apply fmap_sublist, sublist_filter.
Qed.

(** X14. In a run that reaches its end, every row of the subset that is
    drawn comes from a row of a source file: its index label is the position
    of that row in the combined dataset, that row has the chosen symbol and
    a date the library reads as a timestamp within the chosen range, and the
    prices, the volume and the symbol are as they were read. No index label
    occurs twice in the subset. *)
Theorem rendered_rows_from_sources (lib : Library) (fs : FileSystem)
    (files : list string) (w : Widgets) (dfc : DataFrame) (c : Matrix)
    (notes : list string) :
  argsort_ok (argsort lib) ->
  run lib fs files w = Rendered dfc c notes ->
  NoDup (index dfc)
  /\ forall ir, ir ∈ rows dfc ->
       exists r0 t,
         rows (load fs files).1 !! ir.1 = Some (ir.1, r0)
         /\ (files ≫= source_rows fs) !! ir.1 = Some r0
         /\ cell r0 "Name" = Text (selected_company w)
         /\ to_timestamp (parse_date lib) (cell r0 "date") = inr (Stamp t)
         /\ cell ir.2 "date" = Stamp t
         /\ start_d w <= t <= end_d w
         /\ forall x, x ∈ needed -> x ≠ "date"%string -> cell ir.2 x = cell r0 x.
Proof.
  intros Hok. unfold run.
  pose proof (load_rows fs files) as Hrows.
  pose proof (load_index fs files) as Hindex.
  pose proof (load_label fs files) as Hlabel.
  destruct (load fs files) as [raw problems]. cbn [fst] in *.
  destruct (empty raw); [done|].
  destruct (to_datetime (parse_date lib) raw) as [e|all_data] eqn:Hd; [done|].
  destruct (moving_averages _ _ _ _) as [e|dfc'] eqn:Hma; [done|].
  destruct (corr _ _ _) as [e|m]; [done|]. intros [= <- <- <-]. split.
  - rewrite (moving_averages_index _ _ _ _ _ Hma).
    apply filtered_index_NoDup; [done|].
    rewrite (to_datetime_index _ _ _ Hd), Hindex. apply NoDup_seq.
  - intros ir' Hin.
    destruct (moving_averages_elem _ _ _ _ _ _ Hma Hin) as (ir & Hir & Hl & Hcells).
    apply filtered_elem in Hir as [Hir (HN & t & Ht & Hrange)]; [|done].
    destruct (to_datetime_elem _ _ _ _ Hd Hir) as (i & ir0 & v & Hi0 & _ & -> & Hv).
    pose proof (Hlabel i ir0 Hi0) as Hi. destruct ir0 as [j r0]. simpl in Hi. subst j.
    simpl in *.
    unfold cell in Ht, HN. rewrite lookup_insert_eq in Ht. simpl in Ht. subst v.
    rewrite lookup_insert_ne in HN by done.
    exists r0, t. rewrite Hl. split; [done|]. split.
    { rewrite <- Hrows, list_lookup_fmap, Hi0. done. }
    split; [done|]. split; [done|]. split.
    { rewrite Hcells by by_evaluation. unfold cell. by rewrite lookup_insert_eq. }
    split; [done|].
    intros x Hx Hxd. rewrite Hcells by done. unfold cell. by rewrite lookup_insert_ne.
Qed.

(** Witness of X14: the run on the example files with the closing price. *)
Lemma rendered_rows_from_sources_witness :
  argsort_ok (argsort reference_library)
  /\ exists dfc c notes,
       run reference_library example_fs company_list (example_widgets "AAPL" "close")
         = Rendered dfc c notes
       /\ NoDup (index dfc).
Proof.
  split; [apply insertion_argsort_ok|].
  destruct (run reference_library example_fs company_list (example_widgets "AAPL" "close"))
    as [shown|e|dfc c notes] eqn:E; [by vm_compute in E|by vm_compute in E|].
  exists dfc, c, notes. split; [done|].
  by destruct (rendered_rows_from_sources reference_library example_fs company_list
                 (example_widgets "AAPL" "close") dfc c notes
                 (insertion_argsort_ok false) E) as [? _].
Defined.
